(** * monitor_synced.py: retry, backoff and stall detection

    A shallow embedding of [scripts/monitor_synced.py].  The script polls a
    local metrics endpoint and a remote JSON-RPC endpoint through
    subprocesses, sleeps, reads the wall clock and ends the process with
    [exit].  Here every function of the script is a computation that yields
    the events it performs (subprocess calls, clock readings, sleeps, printed
    lines) together with the way it ends: a returned value, a process exit
    with a status, or an exception nobody catches.

    What the subprocesses answer and what the clock shows is the environment
    of a run, a [world]; the position in the environment's answers is passed
    along explicitly. *)

From Stdlib Require Import ZArith QArith List String Ascii Bool Lia.
Import ListNotations.

Set Warnings "-register-all".
Local Open Scope string_scope.
Local Open Scope Z_scope.

(** ** Constants of the script *)

Definition NUM_RETRIES : nat := 5.
Definition CHECKPOINT_STUCK_THRESHOLD_SEC : Z := 10.
Definition START_AWAIT_TIME_SEC : nat := 60.
Definition EPOCH_STUCK_THRESHOLD_SEC : Z := 20 * 60.
Definition RETRY_BASE_TIME_SEC : Z := 3.

Inductive Metric := CHECKPOINT | EPOCH.

Definition value (m : Metric) : string :=
  match m with
  | CHECKPOINT => "last_executed_checkpoint"
  | EPOCH => "current_epoch"
  end.

(** ** The Python values and exceptions the script meets *)

Inductive exn :=
| KeyError | IndexError | TypeError | ValueError | OverflowError
| AttributeError | JSONDecodeError | UnicodeDecodeError | GetoptError.

Definition exn_eqb (a b : exn) : bool :=
  match a, b with
  | KeyError, KeyError | IndexError, IndexError | TypeError, TypeError
  | ValueError, ValueError | OverflowError, OverflowError
  | AttributeError, AttributeError | JSONDecodeError, JSONDecodeError
  | UnicodeDecodeError, UnicodeDecodeError | GetoptError, GetoptError => true
  | _, _ => false
  end.

(** The result of evaluating a Python expression: a value or a raised
    exception. *)
Inductive pyres (A : Type) :=
| Ok (a : A)
| Err (e : exn).
Arguments Ok {A} a.
Arguments Err {A} e.

Definition pybind {A B} (r : pyres A) (f : A -> pyres B) : pyres B :=
  match r with
  | Ok a => f a
  | Err e => Err e
  end.

(** A float, as far as [int()] looks at it. *)
Inductive float_val :=
| Finite (q : Q)
| Infinite
| NaN.

(** What [json.loads] can yield. *)
Inductive pyval :=
| PNone
| PBool (b : bool)
| PInt (n : Z)
| PFloat (x : float_val)
| PStr (s : string)
| PList (l : list pyval)
| PDict (d : list (string * pyval)).

(** *** Text *)

Definition LF : ascii := ascii_of_nat 10.

(** ASCII white space: what [bytes.split] separates on and what [int]
    strips from a byte string. *)
Definition bytes_isspace (c : ascii) : bool :=
  let n := nat_of_ascii c in
  (Nat.eqb n 32 || (Nat.leb 9 n && Nat.leb n 13))%bool.

(** What [int] strips from a [str]: among the ASCII characters the same
    six (code points above 127 are outside this model of text). *)
Definition str_isspace (c : ascii) : bool :=
  bytes_isspace c.

(** [sys.int_info.default_max_str_digits]: [int] refuses a literal with
    more digits. *)
Definition INT_MAX_STR_DIGITS : Z := 4300.

Definition digit_of (c : ascii) : option Z :=
  let n := nat_of_ascii c in
  if (Nat.leb 48 n && Nat.leb n 57)%bool then Some (Z.of_nat n - 48) else None.

Fixpoint all_space (sp : ascii -> bool) (s : string) : bool :=
  match s with
  | EmptyString => true
  | String c t => (sp c && all_space sp t)%bool
  end.

Fixpoint lstrip (sp : ascii -> bool) (s : string) : string :=
  match s with
  | EmptyString => EmptyString
  | String c t => if sp c then lstrip sp t else s
  end.

(** Digits after a first digit, [count] of them read so far: single
    underscores may sit between two digits, only white space may follow
    the last digit, and the digits may not be more than
    [INT_MAX_STR_DIGITS]. *)
Fixpoint more_digits (sp : ascii -> bool) (count acc : Z) (s : string)
  : option Z :=
  match s with
  | EmptyString => if count <=? INT_MAX_STR_DIGITS then Some acc else None
  | String c t =>
      match digit_of c with
      | Some d => more_digits sp (count + 1) (10 * acc + d) t
      | None =>
          if Ascii.eqb c "_" then
            match t with
            | String c' t' =>
                match digit_of c' with
                | Some d' => more_digits sp (count + 1) (10 * acc + d') t'
                | None => None
                end
            | EmptyString => None
            end
          else if (all_space sp s && (count <=? INT_MAX_STR_DIGITS))%bool
               then Some acc else None
      end
  end.

Definition unsigned_literal (sp : ascii -> bool) (s : string) : option Z :=
  match s with
  | String c t =>
      match digit_of c with
      | Some d => more_digits sp 1 d t
      | None => None
      end
  | EmptyString => None
  end.

(** [int(text)] in base 10: optional surrounding white space, an optional
    sign, at most [INT_MAX_STR_DIGITS] decimal digits.  [None] stands for
    the [ValueError]. *)
Definition int_literal (sp : ascii -> bool) (s : string) : option Z :=
  match lstrip sp s with
  | String "+" t => unsigned_literal sp t
  | String "-" t => option_map Z.opp (unsigned_literal sp t)
  | s' => unsigned_literal sp s'
  end.

Definition int_of_text (sp : ascii -> bool) (s : string) : pyres Z :=
  match int_literal sp s with
  | Some n => Ok n
  | None => Err ValueError
  end.

(** [needle in hay] for strings. *)
Fixpoint contains (needle hay : string) : bool :=
  (String.prefix needle hay ||
   match hay with
   | EmptyString => false
   | String _ t => contains needle t
   end)%bool.

(** The lines of a text, without their line ends. *)
Fixpoint splitlines (s : string) : list string :=
  match s with
  | EmptyString => []
  | String c t =>
      if Ascii.eqb c LF then EmptyString :: splitlines t
      else match splitlines t with
           | [] => [String c EmptyString]
           | l :: ls => String c l :: ls
           end
  end.

(** [result.split()]: the maximal runs of characters that are not white
    space. *)
Fixpoint split (s : string) : list string :=
  match s with
  | EmptyString => []
  | String c t =>
      if bytes_isspace c then split t
      else match t with
           | EmptyString => [String c EmptyString]
           | String c' _ =>
               if bytes_isspace c' then String c EmptyString :: split t
               else match split t with
                    | tok :: toks => String c tok :: toks
                    | [] => [String c EmptyString]
                    end
           end
  end.

(** *** Operations on values *)

Fixpoint lookup (k : string) (d : list (string * pyval)) : option pyval :=
  match d with
  | [] => None
  | (k', v) :: rest => if String.eqb k k' then Some v else lookup k rest
  end.

Definition is_str (k : string) (v : pyval) : bool :=
  match v with
  | PStr s => String.eqb s k
  | _ => false
  end.

(** [k in v] for a string [k]. *)
Definition py_in (k : string) (v : pyval) : pyres bool :=
  match v with
  | PDict d => Ok (match lookup k d with Some _ => true | None => false end)
  | PList l => Ok (existsb (is_str k) l)
  | PStr s => Ok (contains k s)
  | _ => Err TypeError
  end.

(** [v[k]] for a string [k]. *)
Definition getitem (v : pyval) (k : string) : pyres pyval :=
  match v with
  | PDict d =>
      match lookup k d with
      | Some x => Ok x
      | None => Err KeyError
      end
  | _ => Err TypeError
  end.

(** [v[0]].  The keys of a decoded JSON object are strings, so a dict has
    no key [0]. *)
Definition getitem0 (v : pyval) : pyres pyval :=
  match v with
  | PDict _ => Err KeyError
  | PList (x :: _) => Ok x
  | PList [] => Err IndexError
  | PStr (String c _) => Ok (PStr (String c EmptyString))
  | PStr EmptyString => Err IndexError
  | _ => Err TypeError
  end.

(** [int(v)]. *)
Definition py_int (v : pyval) : pyres Z :=
  match v with
  | PInt n => Ok n
  | PBool b => Ok (if b then 1 else 0)
  | PFloat (Finite q) => Ok (Z.quot (Qnum q) (Zpos (Qden q)))
  | PFloat Infinite => Err OverflowError
  | PFloat NaN => Err ValueError
  | PStr s => int_of_text str_isspace s
  | _ => Err TypeError
  end.

(** ** Events and outcomes *)

(** The lines the script prints; a constructor per [print], carrying the
    values the line is formatted from. *)
Inductive message :=
| MsgCurlFailed (returncode : Z)
| MsgRpcError (err : pyval)
| MsgRpcMalformed
| MsgEpochFetchExhausted
| MsgMetricParse (m : Metric)
| MsgMetricExhausted (m : Metric)
| MsgStarted (seconds : nat)
| MsgAwaiting
| MsgStartFailed
| MsgUsage
| MsgTarget (end_epoch : Z)
| MsgLocalEpoch (epoch : Z)
| MsgLocalCheckpoint (checkpoint : Z)
| MsgCheckpointStuck (checkpoint : Z)
| MsgNewEpoch (epoch : Z)
| MsgEpochStuck (epoch : Z)
| MsgNewCheckpoint (checkpoint : Z)
| MsgRule
| MsgSynced (end_epoch start_epoch checkpoints elapsed_us : Z).

Inductive event :=
| RemoteCall (env : string) (* the curl POST to explorer-rpc.<env>.sui.io *)
| LocalCall (m : Metric)    (* the curl | grep | grep pipeline *)
| Now (t : Z)             (* datetime.now(), in microseconds *)
| Sleep (secs : Z)        (* time.sleep *)
| Print (msg : message).

(** How a computation ends.  [Unfinished] is the model's own: the step
    budget given to the [while] loop ran out. *)
Inductive outcome (A : Type) :=
| Returned (a : A)
| Exited (status : Z)
| Raised (e : exn)
| Unfinished.
Arguments Returned {A} a.
Arguments Exited {A} status.
Arguments Raised {A} e.
Arguments Unfinished {A}.

Definition W (A : Type) : Type := (list event * outcome A)%type.

Definition trace {A} (m : W A) : list event := fst m.
Definition out {A} (m : W A) : outcome A := snd m.

Definition ret {A} (a : A) : W A := ([], Returned a).

Definition bind {A B} (m : W A) (f : A -> W B) : W B :=
  match snd m with
  | Returned a => ((fst m ++ fst (f a))%list, snd (f a))
  | Exited c => (fst m, Exited c)
  | Raised e => (fst m, Raised e)
  | Unfinished => (fst m, Unfinished)
  end.

Notation "x <- m ;; k" := (bind m (fun x => k))
  (at level 61, m at next level, right associativity).
Notation "m ;; k" := (bind m (fun _ => k))
  (at level 61, right associativity).

Definition emit (e : event) : W unit := ([e], Returned tt).
Definition print (msg : message) : W unit := emit (Print msg).
Definition sleep (secs : Z) : W unit := emit (Sleep secs).
Definition exit {A} (status : Z) : W A := ([], Exited status).
Definition raise {A} (e : exn) : W A := ([], Raised e).

Definition eval {A} (r : pyres A) : W A :=
  match r with
  | Ok a => ret a
  | Err e => raise e
  end.

(** [try: m except (classes): handler]: the handler runs when [m] raises
    one of the listed exceptions. *)
Definition try_except {A} (m : W A) (classes : list exn) (handler : W A) : W A :=
  match snd m with
  | Raised e =>
      if existsb (exn_eqb e) classes
      then ((fst m ++ fst handler)%list, snd handler)
      else m
  | _ => m
  end.

(** The body of a [for] loop either falls through to the next round
    ([continue], or its end) or leaves the function with [return]. *)
Inductive ctl (A : Type) :=
| Continue
| Return (a : A).
Arguments Continue {A}.
Arguments Return {A} a.

(** [for i in range: body] followed by the statements after the loop. *)
Fixpoint for_range {A} (range : list nat) (body : nat -> W (ctl A))
         (after : W A) : W A :=
  match range with
  | [] => after
  | i :: rest =>
      c <- body i ;;
      match c with
      | Return a => ret a
      | Continue => for_range rest body after
      end
  end.

(** ** The environment of a run *)

(** What curl's output decodes to. *)
Inductive body :=
| NotUnicode            (* json.loads raises UnicodeDecodeError *)
| NotJson               (* json.loads raises JSONDecodeError *)
| Json (v : pyval).

(** What [subprocess.check_output] does for the remote request. *)
Inductive rpc_reply :=
| CurlFailed (returncode : Z)   (* CalledProcessError *)
| CurlOk (b : body).

Record world := {
  (* the answer to attempt [i] of the remote epoch request *)
  remote : nat -> rpc_reply;
  (* what curl writes for attempt [i] of the [k]-th local metric read;
     nothing when curl fails *)
  metrics : nat -> nat -> string;
  (* the [n]-th reading of datetime.now(), in microseconds *)
  clock : nat -> Z;
  (* what the two greps make of a page that is not plain text: the output
     of the last one, or the status it fails with.  It depends on the
     version of grep, on the locale and on how the page arrives in the
     pipe, none of which the script fixes *)
  binary_pipeline : Metric -> string -> string + positive
}.

Definition json_loads (b : body) : pyres pyval :=
  match b with
  | NotUnicode => Err UnicodeDecodeError
  | NotJson => Err JSONDecodeError
  | Json v => Ok v
  end.

(** [grep] on the lines of a plain text: the selected lines and the exit
    status (0 when a line was selected, 1 otherwise). *)
Definition grep (selects : string -> bool) (input : list string)
  : list string * Z :=
  let sel := filter selects input in
  (sel, match sel with [] => 1 | _ => 0 end).

(** The pattern [^[^#;]]. *)
Definition not_comment (line : string) : bool :=
  match line with
  | EmptyString => false
  | String c _ => negb (Ascii.eqb c "#" || Ascii.eqb c ";")
  end.

Definition unlines (ls : list string) : string :=
  fold_right (fun l acc => l ++ String LF acc)%string EmptyString ls.

(** A plain text: no NUL and no byte above 127.  On such input grep works
    line by line in every locale; on other input it may hold lines back
    or stop writing. *)
Fixpoint is_text (s : string) : bool :=
  match s with
  | EmptyString => true
  | String c t =>
      let n := nat_of_ascii c in
      (Nat.ltb 0 n && Nat.ltb n 128 && is_text t)%bool
  end.

(** [curl -s .../metrics | grep metric.value | grep '^[^#;]'] under
    [check_output]: the output of the last grep, or the status it failed
    with. *)
Definition metrics_pipeline (w : world) (m : Metric) (curl_stdout : string)
  : string + Z :=
  if is_text curl_stdout then
    let grep_1 := fst (grep (contains (value m)) (splitlines curl_stdout)) in
    let (sel, status) := grep not_comment grep_1 in
    if Z.eqb status 0 then inl (unlines sel) else inr status
  else
    match binary_pipeline w m curl_stdout with
    | inl output => inl output
    | inr status => inr (Zpos status)
    end.

(** ** Command line options *)

(** [opt.index('=')]: the text before the first [=], and the text after it
    when there is one. *)
Fixpoint cut_at_eq (s : string) : string * option string :=
  match s with
  | EmptyString => (EmptyString, None)
  | String c t =>
      if Ascii.eqb c "=" then (EmptyString, Some t)
      else let (a, b) := cut_at_eq t in (String c a, b)
  end.

(** A long option name without its final [=], when it ends with one. *)
Fixpoint chop_eq (s : string) : option string :=
  match s with
  | EmptyString => None
  | String c EmptyString => if Ascii.eqb c "=" then Some EmptyString else None
  | String c t => option_map (String c) (chop_eq t)
  end.

(** [getopt.long_has_args]. *)
Definition long_has_args (opt : string) (longopts : list string)
  : pyres (bool * string) :=
  let possibilities := filter (String.prefix opt) longopts in
  match possibilities with
  | [] => Err GetoptError
  | _ =>
      if existsb (String.eqb opt) possibilities then Ok (false, opt)
      else if existsb (String.eqb (opt ++ "=")) possibilities then Ok (true, opt)
      else match possibilities with
           | [unique_match] =>
               match chop_eq unique_match with
               | Some name => Ok (true, name)
               | None => Ok (false, unique_match)
               end
           | _ => Err GetoptError
           end
  end.

Definition drop2 (s : string) : string :=
  match s with
  | String _ (String _ t) => t
  | _ => EmptyString
  end.

(** [getopt.getopt(args, '', longopts)]: with no short options declared,
    an argument with a single dash is not recognized. *)
Fixpoint getopt (args : list string) (longopts : list string)
         (opts : list (string * string))
  : pyres (list (string * string) * list string) :=
  match args with
  | [] => Ok (opts, [])
  | a :: rest =>
      if (String.prefix "-" a && negb (String.eqb a "-"))%bool then
        if String.eqb a "--" then Ok (opts, rest)
        else if String.prefix "--" a then
          let (opt, optarg) := cut_at_eq (drop2 a) in
          match long_has_args opt longopts with
          | Err e => Err e
          | Ok (has_arg, name) =>
              if has_arg : bool then
                match optarg with
                | Some x => getopt rest longopts (opts ++ [(("--" ++ name)%string, x)])%list
                | None =>
                    match rest with
                    | [] => Err GetoptError
                    | x :: rest' =>
                        getopt rest' longopts (opts ++ [(("--" ++ name)%string, x)])%list
                    end
                end
              else
                match optarg with
                | Some _ => Err GetoptError
                | None => getopt rest longopts (opts ++ [(("--" ++ name)%string, "")])%list
                end
          end
        else Err GetoptError
      else Ok (opts, args)
  end.

(** The loop of [main] over the parsed options. *)
Fixpoint scan_options (opts : list (string * string)) (env : string)
         (end_epoch : option Z) : pyres (string * option Z) :=
  match opts with
  | [] => Ok (env, end_epoch)
  | (opt, arg) :: rest =>
      if String.eqb opt "--env" then scan_options rest arg end_epoch
      else if String.eqb opt "--end-epoch" then
        match int_of_text str_isspace arg with
        | Ok n => scan_options rest env (Some n)
        | Err e => Err e
        end
      else scan_options rest env end_epoch
  end.

(** ** The two retried operations *)

Section Monitor.

Variable w : world.

(** One round of the loop of [get_current_network_epoch]. *)
Definition epoch_attempt (env : string) (i : nat) : W (ctl Z) :=
  emit (RemoteCall env) ;;
  match remote w i with
  | CurlFailed returncode =>
      print (MsgCurlFailed returncode) ;;
      sleep (RETRY_BASE_TIME_SEC * 2 ^ Z.of_nat i) ;;
      ret Continue
  | CurlOk b =>
      try_except
        (result <- eval (json_loads b) ;;
         has_error <- eval (py_in "error" result) ;;
         if has_error : bool then
           err <- eval (getitem result "error") ;;
           print (MsgRpcError err) ;;
           sleep 3 ;;
           ret Continue
         else
           n <- eval (pybind (getitem result "result") (fun r =>
                      pybind (getitem r "data") (fun d =>
                      pybind (getitem0 d) (fun d0 =>
                      pybind (getitem d0 "epoch") py_int)))) ;;
           ret (Return n))
        [KeyError; IndexError; JSONDecodeError]
        (print MsgRpcMalformed ;;
         sleep (RETRY_BASE_TIME_SEC * 2 ^ Z.of_nat i) ;;
         ret Continue)
  end.

Definition get_current_network_epoch (env : string) : W Z :=
  for_range (seq 0 NUM_RETRIES)
    (epoch_attempt env)
    (print MsgEpochFetchExhausted ;;
     exit 1).

(** [result.stdout] in the second handler of [get_local_metric]: [result]
    is the byte string [check_output] returned, which has no such
    attribute. *)
Definition bytes_stdout (result : string) : pyres string :=
  Err AttributeError.

(** One round of the loop of [get_local_metric], in the [k]-th call of
    the function in the run. *)
Definition metric_attempt (metric : Metric) (k i : nat) : W (ctl Z) :=
  emit (LocalCall metric) ;;
  match metrics_pipeline w metric (metrics w k i) with
  | inr returncode =>
      print (MsgCurlFailed returncode) ;;
      sleep (RETRY_BASE_TIME_SEC * 2 ^ Z.of_nat i) ;;
      ret Continue
  | inl result =>
      try_except
        (n <- eval (match nth_error (split result) 1 with
                    | Some tok => int_of_text bytes_isspace tok
                    | None => Err IndexError
                    end) ;;
         ret (Return n))
        [KeyError; IndexError; JSONDecodeError]
        (_ <- eval (bytes_stdout result) ;;
         print (MsgMetricParse metric) ;;
         sleep (RETRY_BASE_TIME_SEC * 2 ^ Z.of_nat i) ;;
         ret Continue)
  end.

Definition get_local_metric (metric : Metric) (k : nat) : W Z :=
  for_range (seq 0 NUM_RETRIES)
    (metric_attempt metric k)
    (print (MsgMetricExhausted metric) ;;
     exit 1).

(** One round of the loop of [await_started], [k] local reads having been
    made before the function was called. *)
Definition await_poll (start_checkpoint : Z) (k i : nat) : W (ctl nat) :=
  checkpoint <- get_local_metric CHECKPOINT (k + i) ;;
  if negb (checkpoint =? start_checkpoint) then
    print (MsgStarted i) ;;
    ret (Return (S (k + i)))
  else
    print MsgAwaiting ;;
    sleep 1 ;;
    ret Continue.

(** [await_started] returns the number of local reads made so far. *)
Definition await_started (start_checkpoint : Z) (k : nat) : W nat :=
  for_range (seq 0 START_AWAIT_TIME_SEC)
    (await_poll start_checkpoint k)
    (print MsgStartFailed ;;
     ret (k + START_AWAIT_TIME_SEC)%nat).

(** [datetime.now()], the [n]-th reading of the run. *)
Definition now (n : nat) : W Z :=
  emit (Now (clock w n)) ;;
  ret (clock w n).

(** The variables of the [while] loop of [main], and how many local reads
    and clock readings the run has made. *)
Record loop_state := {
  current_epoch : Z;
  current_checkpoint : Z;
  current_time : Z;
  reads : nat;
  ticks : nat
}.

(** [timedelta.total_seconds() > secs], on microseconds. *)
Definition longer_than (elapsed_us secs : Z) : bool :=
  secs * 1000000 <? elapsed_us.

(** One round of the [while] loop of [main]. *)
Definition poll_once (s : loop_state) : W loop_state :=
  sleep CHECKPOINT_STUCK_THRESHOLD_SEC ;;
  new_checkpoint <- get_local_metric CHECKPOINT (reads s) ;;
  if new_checkpoint =? current_checkpoint s then
    print (MsgCheckpointStuck (current_checkpoint s)) ;;
    exit 1
  else
    new_epoch <- get_local_metric EPOCH (S (reads s)) ;;
    s' <- (if current_epoch s <? new_epoch then
             print (MsgNewEpoch new_epoch) ;;
             t <- now (ticks s) ;;
             ret {| current_epoch := new_epoch;
                    current_checkpoint := new_checkpoint;
                    current_time := t;
                    reads := S (S (reads s));
                    ticks := S (ticks s) |}
           else
             t <- now (ticks s) ;;
             if longer_than (t - current_time s) EPOCH_STUCK_THRESHOLD_SEC then
               print (MsgEpochStuck (current_epoch s)) ;;
               exit 1
             else
               ret {| current_epoch := current_epoch s;
                      current_checkpoint := new_checkpoint;
                      current_time := current_time s;
                      reads := S (S (reads s));
                      ticks := S (ticks s) |}) ;;
    print (MsgNewCheckpoint new_checkpoint) ;;
    ret s'.

(** [while current_epoch < end_epoch: ...], with a budget of rounds. *)
Fixpoint polling (fuel : nat) (end_epoch : Z) (s : loop_state)
  : W loop_state :=
  if current_epoch s <? end_epoch then
    match fuel with
    | O => ([], Unfinished)
    | S fuel' =>
        s' <- poll_once s ;;
        polling fuel' end_epoch s'
    end
  else ret s.

(** The head of [main]: the argument count check, [getopt] and the loop
    over the options. *)
Definition main_options (argv : list string) : W (string * option Z) :=
  if (2 <? List.length argv)%nat then
    print MsgUsage ;;
    exit 1
  else
    parsed <- eval (getopt argv ["env="; "end-epoch="] []) ;;
    eval (scan_options (fst parsed) "testnet" None).

(** The end of [main]: the polling loop and the report, [k] local reads
    having been made before. *)
Definition poll_and_report (fuel : nat) (end_epoch start_epoch
                            start_checkpoint : Z) (k : nat) : W unit :=
  start_time <- now 0 ;;
  s <- polling fuel end_epoch
         {| current_epoch := start_epoch;
            current_checkpoint := start_checkpoint;
            current_time := start_time;
            reads := k;
            ticks := 1 |} ;;
  finish <- now (ticks s) ;;
  print MsgRule ;;
  print (MsgSynced end_epoch start_epoch
                   (current_checkpoint s - start_checkpoint)
                   (finish - start_time)) ;;
  exit 0.

(** [main] from the line that announces the target on. *)
Definition sync_to (fuel : nat) (end_epoch : Z) : W unit :=
  print (MsgTarget end_epoch) ;;
  current_epoch <- get_local_metric EPOCH 0 ;;
  print (MsgLocalEpoch current_epoch) ;;
  let start_epoch := current_epoch in
  current_checkpoint <- get_local_metric CHECKPOINT 1 ;;
  print (MsgLocalCheckpoint current_checkpoint) ;;
  let start_checkpoint := current_checkpoint in
  k <- await_started start_checkpoint 2 ;;
  poll_and_report fuel end_epoch start_epoch start_checkpoint k.

Definition main (fuel : nat) (argv : list string) : W unit :=
  options <- main_options argv ;;
  end_epoch <- match snd options with
               | None => get_current_network_epoch (fst options)
               | Some n => ret n
               end ;;
  sync_to fuel end_epoch.

End Monitor.

(** * Vocabulary of the properties *)

(** The events of the rounds of a range, one after the other. *)
Definition rounds {A} (body : nat -> W (ctl A)) (range : list nat)
  : list event :=
  List.concat (map (fun i => trace (body i)) range).

(** The delay the specification gives for the failed attempt [i]. *)
Definition backoff_delay (i : nat) : Z := 3 * 2 ^ Z.of_nat i.

Fixpoint sleeps (tr : list event) : list Z :=
  match tr with
  | [] => []
  | Sleep secs :: rest => secs :: sleeps rest
  | _ :: rest => sleeps rest
  end.

(** Every event of a computation satisfies [P]. *)
Definition emits_only {A} (P : event -> Prop) (m : W A) : Prop :=
  Forall P (trace m).

(** The events of a local read. *)
Definition local_event (e : event) : Prop :=
  match e with
  | LocalCall _ | Sleep _
  | Print (MsgCurlFailed _) | Print (MsgMetricParse _)
  | Print (MsgMetricExhausted _) => True
  | _ => False
  end.

Definition not_remote (e : event) : Prop :=
  match e with
  | RemoteCall _ => False
  | _ => True
  end.

Definition is_epoch_stall (e : event) : bool :=
  match e with
  | Print (MsgEpochStuck _) => true
  | _ => false
  end.

(** A run reported an epoch stall. *)
Definition epoch_stall_triggered (tr : list event) : bool :=
  existsb is_epoch_stall tr.

(** What the epoch read of round [k] of the loop yields, [r] local reads
    having been made before the loop. *)
Definition epoch_reading (w : world) (r k : nat) : outcome Z :=
  out (get_local_metric w EPOCH (S (2 * k + r))).

(** The highest epoch seen before round [k], [cur] being the epoch the
    loop started with. *)
Fixpoint highest (w : world) (cur : Z) (r k : nat) : Z :=
  match k with
  | O => cur
  | S k' =>
      match epoch_reading w r k' with
      | Returned e => Z.max (highest w cur r k') e
      | _ => highest w cur r k'
      end
  end.

(** The epoch read in round [k] is an increase. *)
Definition advance (w : world) (cur : Z) (r k : nat) : Prop :=
  exists e, epoch_reading w r k = Returned e /\ highest w cur r k < e.

Definition NINETEEN_MINUTES_US : Z := 19 * 60 * 1000000.

(** When round [k] reads the clock, the loop was entered or the epoch
    increased at most 19 minutes before; [n] clock readings were made
    before the loop, the last of them at [t0]. *)
Definition paced (w : world) (cur t0 : Z) (r n k : nat) : Prop :=
  clock w (k + n) - t0 <= NINETEEN_MINUTES_US \/
  exists j, (j <= k)%nat /\ advance w cur r j /\
            clock w (k + n) - clock w (j + n) <= NINETEEN_MINUTES_US.

(** ** Worlds used as concrete inputs *)

Definition line (name val : string) : string :=
  (name ++ " " ++ val ++ String LF "")%string.

Definition epoch_answer (epoch : pyval) : rpc_reply :=
  CurlOk (Json (PDict [("jsonrpc", PStr "2.0");
                       ("result", PDict [("data", PList [PDict [("epoch", epoch)]])]);
                       ("id", PInt 1)])).

(** Nothing answers: curl fails against the remote service and writes
    nothing for the local one. *)
Definition all_down : world := {|
  remote := fun _ => CurlFailed 7;
  metrics := fun _ _ => "";
  clock := fun n => Z.of_nat n;
  binary_pipeline := fun _ _ => inr 1%positive
|}.

(** The remote service answers every request with a JSON-RPC error. *)
Definition rpc_errors : world := {|
  remote := fun _ =>
    CurlOk (Json (PDict [("jsonrpc", PStr "2.0");
                         ("error", PDict [("code", PInt (-32000))]);
                         ("id", PInt 1)]));
  metrics := fun _ _ => "";
  clock := fun n => Z.of_nat n;
  binary_pipeline := fun _ _ => inr 1%positive
|}.

(** The first answer of each kind carries a value that is no integer
    literal; all later answers are well formed. *)
Definition bad_then_good : world := {|
  remote := fun i =>
    match i with
    | O => epoch_answer (PStr "abc")
    | _ => epoch_answer (PStr "123")
    end;
  metrics := fun _ i =>
    match i with
    | O => line "last_executed_checkpoint{}" "1.5e3"
    | _ => line "last_executed_checkpoint{}" "1042"
    end;
  clock := fun n => Z.of_nat n;
  binary_pipeline := fun _ _ => inr 1%positive
|}.

(** The checkpoint metric answers 500 at every read. *)
Definition stuck_at_500 : world := {|
  remote := fun _ => CurlFailed 7;
  metrics := fun _ _ => line "last_executed_checkpoint" "500";
  clock := fun n => Z.of_nat n;
  binary_pipeline := fun _ _ => inr 1%positive
|}.

(** The run of the specification's example: the local epoch reads 10, 10,
    11, 12 while the checkpoint moves at every read, ten seconds apart. *)
Definition sync_10_12 : world := {|
  remote := fun _ => CurlFailed 7;
  metrics := fun k _ =>
    match k with
    | 0%nat => line "current_epoch" "10"
    | 1%nat => line "last_executed_checkpoint" "100"
    | 2%nat => line "last_executed_checkpoint" "101"
    | 3%nat => line "last_executed_checkpoint" "102"
    | 4%nat => line "current_epoch" "10"
    | 5%nat => line "last_executed_checkpoint" "103"
    | 6%nat => line "current_epoch" "11"
    | 7%nat => line "last_executed_checkpoint" "104"
    | 8%nat => line "current_epoch" "12"
    | _ => ""
    end;
  clock := fun n => Z.of_nat n * 10000000;
  binary_pipeline := fun _ _ => inr 1%positive
|}.

(** The checkpoint moves, the epoch stays at 10, and the clock shows a
    microsecond more than twenty minutes. *)
Definition epoch_stuck : world := {|
  remote := fun _ => CurlFailed 7;
  metrics := fun k _ =>
    match k with
    | 0%nat => line "last_executed_checkpoint" "501"
    | _ => line "current_epoch" "10"
    end;
  clock := fun _ => 1200000001;
  binary_pipeline := fun _ _ => inr 1%positive
|}.

(** The checkpoint metric answers 100 at every read. *)
Definition never_starts : world := {|
  remote := fun _ => CurlFailed 7;
  metrics := fun _ _ => line "last_executed_checkpoint" "100";
  clock := fun n => Z.of_nat n;
  binary_pipeline := fun _ _ => inr 1%positive
|}.

(** The node is at epoch 12 when the monitor starts. *)
Definition at_target : world := {|
  remote := fun _ => CurlFailed 7;
  metrics := fun k _ =>
    match k with
    | 0%nat => line "current_epoch" "12"
    | 1%nat => line "last_executed_checkpoint" "100"
    | _ => line "last_executed_checkpoint" "101"
    end;
  clock := fun n => 5 + Z.of_nat n;
  binary_pipeline := fun _ _ => inr 1%positive
|}.

(** ** Vocabulary of the further properties *)

(** The seconds a run sleeps in all. *)
Definition total_sleep (tr : list event) : Z :=
  fold_right Z.add 0 (sleeps tr).

Definition is_call (e : event) : bool :=
  match e with
  | RemoteCall _ | LocalCall _ => true
  | _ => false
  end.

(** The subprocess pipelines a run starts. *)
Definition calls (tr : list event) : nat :=
  List.length (filter is_call tr).

(** A computation that ends the process does so with status [status]. *)
Definition exits_only_with {A} (status : Z) (m : W A) : Prop :=
  forall c, out m = Exited c -> c = status.

(** The lines the script prints right before an [exit], each with the
    status of that exit. *)
Definition final_line (status : Z) (msg : message) : Prop :=
  match msg with
  | MsgSynced _ _ _ _ => status = 0
  | MsgUsage | MsgEpochFetchExhausted | MsgMetricExhausted _
  | MsgCheckpointStuck _ | MsgEpochStuck _ => status = 1
  | _ => False
  end.

(** When a computation ends the process, the last thing it did was to
    print the line that belongs to the exit. *)
Definition announced {A} (m : W A) : Prop :=
  forall c, out m = Exited c ->
            exists pre msg,
              trace m = (pre ++ [Print msg])%list /\ final_line c msg.

(** What the checkpoint read of round [k] of the loop yields, [r] local
    reads having been made before the loop. *)
Definition checkpoint_reading (w : world) (r k : nat) : outcome Z :=
  out (get_local_metric w CHECKPOINT (2 * k + r)).

(** The epochs a run announces as new. *)
Fixpoint new_epochs (tr : list event) : list Z :=
  match tr with
  | [] => []
  | Print (MsgNewEpoch e) :: rest => e :: new_epochs rest
  | _ :: rest => new_epochs rest
  end.

(** Each number of the list is above the one before it, the first above
    [lo]. *)
Fixpoint increasing_from (lo : Z) (l : list Z) : Prop :=
  match l with
  | [] => True
  | x :: rest => lo < x /\ increasing_from x rest
  end.

(** The checkpoint moves at every read and the epoch stays at 10, while
    the clock shows ten minutes at the first round and a microsecond more
    than twenty at the second. *)
Definition stalls_later : world := {|
  remote := fun _ => CurlFailed 7;
  metrics := fun k _ =>
    match k with
    | 0%nat => line "last_executed_checkpoint" "501"
    | 2%nat => line "last_executed_checkpoint" "502"
    | _ => line "current_epoch" "10"
    end;
  clock := fun n =>
    match n with
    | 0%nat => 600000000
    | _ => 1200000001
    end;
  binary_pipeline := fun _ _ => inr 1%positive
|}.

(** Four attempts fail in a way the script retries; the fifth answer
    carries a value that is no integer literal. *)
Definition four_then_bad : world := {|
  remote := fun i =>
    match i with
    | 4%nat => epoch_answer (PStr "abc")
    | _ => CurlFailed 7
    end;
  metrics := fun _ i =>
    match i with
    | 4%nat => line "last_executed_checkpoint{}" "1.5e3"
    | _ => ""
    end;
  clock := fun n => Z.of_nat n;
  binary_pipeline := fun _ _ => inr 1%positive
|}.

(** [int(result['result']['data'][0]['epoch'])] for a decoded object
    with the members [d]. *)
Definition epoch_of (d : list (string * pyval)) : pyres Z :=
  pybind (getitem (PDict d) "result") (fun r =>
  pybind (getitem r "data") (fun d1 =>
  pybind (getitem0 d1) (fun d0 =>
  pybind (getitem d0 "epoch") py_int))).


(** The remote service and the metrics endpoint fail twice and then
    answer. *)
Definition flaky : world := {|
  remote := fun i =>
    match i with
    | 0%nat => CurlFailed 7
    | 1%nat => CurlOk NotJson
    | _ => epoch_answer (PStr "42")
    end;
  metrics := fun _ i =>
    match i with
    | 0%nat | 1%nat => ""
    | _ => line "current_epoch" "42"
    end;
  clock := fun n => Z.of_nat n;
  binary_pipeline := fun _ _ => inr 1%positive
|}.

(** The checkpoint moves, the epoch reads 9, and the clock shows twenty
    minutes exactly. *)
Definition twenty_minutes : world := {|
  remote := fun _ => CurlFailed 7;
  metrics := fun k _ =>
    match k with
    | 0%nat => line "last_executed_checkpoint" "501"
    | _ => line "current_epoch" "9"
    end;
  clock := fun _ => 1200000000;
  binary_pipeline := fun _ _ => inr 1%positive
|}.

(** Answers of the remote service that are JSON but not what the script
    expects: a result together with an error, no result, a null
    result. *)
Definition odd_answers : world := {|
  remote := fun i =>
    match i with
    | 0%nat =>
        CurlOk (Json (PDict [("error", PStr "busy");
                             ("result",
                              PDict [("data", PList [PDict [("epoch", PStr "7")]])])]))
    | 1%nat => CurlOk (Json (PDict [("id", PInt 1)]))
    | 2%nat => CurlOk (Json (PDict [("result", PNone)]))
    | _ => CurlOk (Json PNone)
    end;
  metrics := fun _ _ => "";
  clock := fun n => Z.of_nat n;
  binary_pipeline := fun _ _ => inr 1%positive
|}.


(** * Properties *)

(** ** Sequencing *)

Section Laws.

Context {A B : Type}.

Lemma bind_returned (m : W A) (f : A -> W B) (a : A) :
  out m = Returned a ->
  bind m f = ((trace m ++ trace (f a))%list, out (f a)).
Proof.
  destruct m as [tr o]; simpl; intros ->; reflexivity.
Qed.

Lemma bind_exited (m : W A) (f : A -> W B) (c : Z) :
  out m = Exited c -> bind m f = (trace m, Exited c).
Proof.
  destruct m as [tr o]; simpl; intros ->; reflexivity.
Qed.

Lemma bind_raised (m : W A) (f : A -> W B) (e : exn) :
  out m = Raised e -> bind m f = (trace m, Raised e).
Proof.
  destruct m as [tr o]; simpl; intros ->; reflexivity.
Qed.


Lemma bind_pure (a : A) (f : A -> W B) :
  bind ([], Returned a) f = f a.
Proof.
  unfold bind; simpl. now destruct (f a).
Qed.

Lemma trace_bind_prefix (m : W A) (f : A -> W B) :
  exists rest, trace (bind m f) = (trace m ++ rest)%list.
Proof.
  destruct m as [tr [a | c | e | ]]; unfold bind; simpl;
    first [ now exists (fst (f a)) | exists []; now rewrite app_nil_r ].
Qed.

End Laws.

(** ** The [for] loops *)

Section ForRange.

Context {A : Type}.
Variable body : nat -> W (ctl A).
Variable after : W A.

Lemma for_range_app (pre post : list nat) :
  (forall i, In i pre -> out (body i) = Returned Continue) ->
  for_range (pre ++ post) body after =
  ((rounds body pre ++ trace (for_range post body after))%list,
   out (for_range post body after)).
Proof.
  induction pre as [| i pre IH]; intros Hpre.
  - simpl. now destruct (for_range post body after).
  - simpl app. simpl for_range.
    rewrite (bind_returned _ _ Continue) by (apply Hpre; now left).
    rewrite IH by (intros j Hj; apply Hpre; now right).
    unfold rounds, trace, out. simpl. now rewrite app_assoc.
Qed.

(** Every round falls through: the statements after the loop run. *)
Lemma for_range_exhausted (range : list nat) :
  (forall i, In i range -> out (body i) = Returned Continue) ->
  for_range range body after =
  ((rounds body range ++ trace after)%list, out after).
Proof.
  intros H. rewrite <- (app_nil_r range) at 1.
  now rewrite for_range_app.
Qed.

(** The first round that does not fall through decides. *)
Lemma for_range_returns (pre post : list nat) (j : nat) (a : A) :
  (forall i, In i pre -> out (body i) = Returned Continue) ->
  out (body j) = Returned (Return a) ->
  for_range (pre ++ j :: post) body after =
  ((rounds body pre ++ trace (body j))%list, Returned a).
Proof.
  intros Hpre Hj. rewrite for_range_app by assumption.
  simpl for_range. rewrite (bind_returned _ _ (Return a)) by assumption.
  unfold trace, out. simpl. now rewrite app_nil_r.
Qed.

Lemma for_range_exits (pre post : list nat) (j : nat) (c : Z) :
  (forall i, In i pre -> out (body i) = Returned Continue) ->
  out (body j) = Exited c ->
  for_range (pre ++ j :: post) body after =
  ((rounds body pre ++ trace (body j))%list, Exited c).
Proof.
  intros Hpre Hj. rewrite for_range_app by assumption.
  simpl for_range. now rewrite (bind_exited _ _ c) by assumption.
Qed.

Lemma for_range_raises (pre post : list nat) (j : nat) (e : exn) :
  (forall i, In i pre -> out (body i) = Returned Continue) ->
  out (body j) = Raised e ->
  for_range (pre ++ j :: post) body after =
  ((rounds body pre ++ trace (body j))%list, Raised e).
Proof.
  intros Hpre Hj. rewrite for_range_app by assumption.
  simpl for_range. now rewrite (bind_raised _ _ e) by assumption.
Qed.

(** Either every round falls through, or there is a first one that does
    not. *)
Lemma for_range_split (range : list nat) :
  (forall i, In i range -> out (body i) = Returned Continue) \/
  exists pre j post,
    range = (pre ++ j :: post)%list /\
    (forall i, In i pre -> out (body i) = Returned Continue) /\
    out (body j) <> Returned Continue.
Proof.
  induction range as [| i range IH].
  - left. intros i [].
  - destruct (out (body i)) as [[| a] | c | e | ] eqn:Hi.
    + destruct IH as [IH | (pre & j & post & -> & Hpre & Hj)].
      * left. intros j [<- | Hj]; auto.
      * right. exists (i :: pre), j, post. repeat split; auto.
        intros i' [<- | Hi']; auto.
    + right. exists [], i, range. repeat split; [intros ? [] | congruence].
    + right. exists [], i, range. repeat split; [intros ? [] | congruence].
    + right. exists [], i, range. repeat split; [intros ? [] | congruence].
    + right. exists [], i, range. repeat split; [intros ? [] | congruence].
Qed.

End ForRange.

(** ** Retries and backoff *)

Lemma backoff_schedule :
  map backoff_delay (seq 0 NUM_RETRIES) = [3; 6; 12; 24; 48] /\
  fold_right Z.add 0 (map backoff_delay (seq 0 NUM_RETRIES)) = 93.
Proof.
  split; reflexivity.
Qed.

Section Attempts.

Variable w : world.

(** A failed transport is answered with the exponential delay. *)
Lemma epoch_attempt_transport (env : string) (i : nat) (rc : Z) :
  remote w i = CurlFailed rc ->
  epoch_attempt w env i =
  ([RemoteCall env; Print (MsgCurlFailed rc); Sleep (backoff_delay i)],
   Returned Continue).
Proof.
  intros H. unfold epoch_attempt. rewrite H. reflexivity.
Qed.

(** So is output that is not JSON. *)
Lemma epoch_attempt_not_json (env : string) (i : nat) :
  remote w i = CurlOk NotJson ->
  epoch_attempt w env i =
  ([RemoteCall env; Print MsgRpcMalformed; Sleep (backoff_delay i)],
   Returned Continue).
Proof.
  intros H. unfold epoch_attempt. rewrite H. reflexivity.
Qed.

(** An answer that carries an [error] member is answered with three
    seconds, whatever the attempt. *)
Lemma epoch_attempt_rpc_error (env : string) (i : nat)
      (d : list (string * pyval)) (err : pyval) :
  remote w i = CurlOk (Json (PDict d)) ->
  lookup "error" d = Some err ->
  epoch_attempt w env i =
  ([RemoteCall env; Print (MsgRpcError err); Sleep 3], Returned Continue).
Proof.
  intros H Hd. unfold epoch_attempt. rewrite H.
  unfold try_except, bind, eval, json_loads, py_in, getitem; simpl.
  rewrite Hd. reflexivity.
Qed.

(** The last grep selecting nothing (as when curl wrote nothing) is
    answered with the exponential delay. *)
Lemma metric_attempt_no_line (metric : Metric) (k i : nat) (rc : Z) :
  metrics_pipeline w metric (metrics w k i) = inr rc ->
  metric_attempt w metric k i =
  ([LocalCall metric; Print (MsgCurlFailed rc); Sleep (backoff_delay i)],
   Returned Continue).
Proof.
  intros H. unfold metric_attempt. rewrite H. reflexivity.
Qed.

Lemma metric_attempt_value (metric : Metric) (k i : nat)
      (result tok : string) (n : Z) :
  metrics_pipeline w metric (metrics w k i) = inl result ->
  nth_error (split result) 1 = Some tok ->
  int_literal bytes_isspace tok = Some n ->
  metric_attempt w metric k i = ([LocalCall metric], Returned (Return n)).
Proof.
  intros H Ht Hn. unfold metric_attempt. rewrite H, Ht.
  unfold int_of_text. rewrite Hn. reflexivity.
Qed.

(** A second token that is not an integer literal: the [ValueError] of
    [int] is none of the exceptions the handler lists. *)
Lemma metric_attempt_bad_value (metric : Metric) (k i : nat)
      (result tok : string) :
  metrics_pipeline w metric (metrics w k i) = inl result ->
  nth_error (split result) 1 = Some tok ->
  int_literal bytes_isspace tok = None ->
  metric_attempt w metric k i = ([LocalCall metric], Raised ValueError).
Proof.
  intros H Ht Hn. unfold metric_attempt. rewrite H, Ht.
  unfold int_of_text. rewrite Hn. reflexivity.
Qed.

(** A selected line without a second token: the handler runs and fails
    on [result.stdout] before it sleeps. *)
Lemma metric_attempt_no_value (metric : Metric) (k i : nat)
      (result : string) :
  metrics_pipeline w metric (metrics w k i) = inl result ->
  nth_error (split result) 1 = None ->
  metric_attempt w metric k i = ([LocalCall metric], Raised AttributeError).
Proof.
  intros H Ht. unfold metric_attempt. rewrite H, Ht. reflexivity.
Qed.

Lemma metrics_pipeline_nothing (metric : Metric) :
  metrics_pipeline w metric "" = inr 1.
Proof.
  destruct metric; reflexivity.
Qed.

(** Five failed transports in a row sleep 3, 6, 12, 24 and 48 seconds. *)
Lemma transport_failures_backoff (env : string) :
  (forall i, (i < NUM_RETRIES)%nat -> exists rc, remote w i = CurlFailed rc) ->
  sleeps (trace (get_current_network_epoch w env)) = [3; 6; 12; 24; 48].
Proof.
  intros H. unfold get_current_network_epoch.
  assert (Hall : forall i, In i (seq 0 NUM_RETRIES) ->
                 exists rc, remote w i = CurlFailed rc).
  { intros i Hi. apply in_seq in Hi. apply H. lia. }
  rewrite for_range_exhausted.
  - unfold NUM_RETRIES in Hall. simpl seq in Hall.
    destruct (Hall 0%nat) as [r0 E0]; [simpl; tauto |].
    destruct (Hall 1%nat) as [r1 E1]; [simpl; tauto |].
    destruct (Hall 2%nat) as [r2 E2]; [simpl; tauto |].
    destruct (Hall 3%nat) as [r3 E3]; [simpl; tauto |].
    destruct (Hall 4%nat) as [r4 E4]; [simpl; tauto |].
    cbv [rounds NUM_RETRIES seq map List.concat].
    rewrite (epoch_attempt_transport _ _ _ E0), (epoch_attempt_transport _ _ _ E1),
      (epoch_attempt_transport _ _ _ E2), (epoch_attempt_transport _ _ _ E3),
      (epoch_attempt_transport _ _ _ E4).
    reflexivity.
  - intros i Hi. destruct (Hall i Hi) as [rc E].
    now rewrite (epoch_attempt_transport _ _ _ E).
Qed.

Lemma empty_reads_backoff (metric : Metric) (k : nat) :
  (forall i, (i < NUM_RETRIES)%nat ->
             exists rc, metrics_pipeline w metric (metrics w k i) = inr rc) ->
  sleeps (trace (get_local_metric w metric k)) = [3; 6; 12; 24; 48].
Proof.
  intros H. unfold get_local_metric.
  assert (Hall : forall i, In i (seq 0 NUM_RETRIES) ->
                 exists rc, metrics_pipeline w metric (metrics w k i) = inr rc).
  { intros i Hi. apply in_seq in Hi. apply H. lia. }
  rewrite for_range_exhausted.
  - unfold NUM_RETRIES in Hall. simpl seq in Hall.
    destruct (Hall 0%nat) as [r0 E0]; [simpl; tauto |].
    destruct (Hall 1%nat) as [r1 E1]; [simpl; tauto |].
    destruct (Hall 2%nat) as [r2 E2]; [simpl; tauto |].
    destruct (Hall 3%nat) as [r3 E3]; [simpl; tauto |].
    destruct (Hall 4%nat) as [r4 E4]; [simpl; tauto |].
    cbv [rounds NUM_RETRIES seq map List.concat].
    rewrite (metric_attempt_no_line _ _ _ _ E0), (metric_attempt_no_line _ _ _ _ E1),
      (metric_attempt_no_line _ _ _ _ E2), (metric_attempt_no_line _ _ _ _ E3),
      (metric_attempt_no_line _ _ _ _ E4).
    reflexivity.
  - intros i Hi. destruct (Hall i Hi) as [rc E].
    now rewrite (metric_attempt_no_line _ _ _ _ E).
Qed.



End Attempts.

(** C1: the delay slept after the failed attempt [i] is [3 * 2^i] seconds in
    every failure branch of both operations, so that five failures sleep
    3, 6, 12, 24, 48.  The code does not do this in the branch of the
    remote fetch that handles an answer with an [error] member: with five
    such answers it sleeps 3 seconds five times. *)
Theorem rpc_error_delay_is_flat :
  epoch_attempt rpc_errors "testnet" 1 =
    ([RemoteCall "testnet";
      Print (MsgRpcError (PDict [("code", PInt (-32000))]));
      Sleep 3],
     Returned Continue) /\
  backoff_delay 1 = 6 /\
  sleeps (trace (get_current_network_epoch rpc_errors "testnet")) =
    [3; 3; 3; 3; 3] /\
  sleeps (trace (get_current_network_epoch rpc_errors "testnet")) <>
    map backoff_delay (seq 0 NUM_RETRIES).
Proof.
  repeat split; try reflexivity.
  vm_compute. discriminate.
Qed.

(** C2: in [get_local_metric] a value token that is not an integer is a
    retryable failure, and a later good attempt returns the value.  The
    code raises the [ValueError] of [int] past its handler at the first
    such attempt: nothing is slept and the good second answer (1042) is
    never asked for. *)
Theorem unparsable_metric_value_is_not_retried :
  get_local_metric bad_then_good CHECKPOINT 0 =
    ([LocalCall CHECKPOINT], Raised ValueError) /\
  metric_attempt bad_then_good CHECKPOINT 0 1 =
    ([LocalCall CHECKPOINT], Returned (Return 1042)).
Proof.
  split; reflexivity.
Qed.

(** C3: in [get_current_network_epoch] an epoch that cannot be coerced to
    an integer is a retryable failure, and a later good attempt returns
    the epoch.  The code raises the [ValueError] of [int] past its handler
    at the first such attempt: nothing is slept and the good second answer
    (123) is never asked for. *)
Theorem unparsable_epoch_is_not_retried :
  get_current_network_epoch bad_then_good "testnet" =
    ([RemoteCall "testnet"], Raised ValueError) /\
  epoch_attempt bad_then_good "testnet" 1 =
    ([RemoteCall "testnet"], Returned (Return 123)).
Proof.
  split; reflexivity.
Qed.

(** C8: when five attempts of an operation fail in a row, the operation
    prints its diagnostic and exits the process with a non-zero status,
    and hands no failure to its caller.  The code does not do this when
    the fifth failure is a value that is no integer: after four retried
    failures and the sleeps of 3, 6, 12 and 24 seconds, the [ValueError]
    of [int] leaves the operation towards its caller; no diagnostic is
    printed and [exit] is not called. *)
Theorem fifth_failure_unparsable_is_raised :
  out (get_current_network_epoch four_then_bad "testnet") = Raised ValueError /\
  sleeps (trace (get_current_network_epoch four_then_bad "testnet")) =
    [3; 6; 12; 24] /\
  calls (trace (get_current_network_epoch four_then_bad "testnet")) = 5%nat /\
  ~ In (Print MsgEpochFetchExhausted)
       (trace (get_current_network_epoch four_then_bad "testnet")) /\
  out (get_local_metric four_then_bad CHECKPOINT 0) = Raised ValueError /\
  sleeps (trace (get_local_metric four_then_bad CHECKPOINT 0)) =
    [3; 6; 12; 24] /\
  calls (trace (get_local_metric four_then_bad CHECKPOINT 0)) = 5%nat /\
  ~ In (Print (MsgMetricExhausted CHECKPOINT))
       (trace (get_local_metric four_then_bad CHECKPOINT 0)).
Proof.
  repeat split; try reflexivity.
  - vm_compute. intuition discriminate.
  - vm_compute. intuition discriminate.
Qed.



(** ** What a computation can emit *)

Section Emits.

Variable P : event -> Prop.

Lemma emits_only_bind {A B} (m : W A) (f : A -> W B) :
  emits_only P m -> (forall a, emits_only P (f a)) -> emits_only P (bind m f).
Proof.
  unfold emits_only. destruct m as [tr [a | c | e | ]]; unfold bind; simpl;
    intros Hm Hf; auto.
  apply Forall_app. split; [assumption | apply Hf].
Qed.

Lemma emits_only_try_except {A} (m : W A) (classes : list exn) (h : W A) :
  emits_only P m -> emits_only P h -> emits_only P (try_except m classes h).
Proof.
  unfold emits_only, try_except. destruct m as [tr [a | c | e | ]]; simpl;
    intros Hm Hh; auto.
  destruct (existsb (exn_eqb e) classes); simpl; auto.
  apply Forall_app. now split.
Qed.

Lemma emits_only_for_range {A} (body : nat -> W (ctl A)) (after : W A)
      (range : list nat) :
  (forall i, emits_only P (body i)) -> emits_only P after ->
  emits_only P (for_range range body after).
Proof.
  intros Hbody Hafter. induction range as [| i range IH]; simpl.
  - assumption.
  - apply emits_only_bind; [apply Hbody |].
    intros [| a]; [assumption | constructor].
Qed.

Lemma emits_only_ret {A} (a : A) : emits_only P (ret a).
Proof. constructor. Qed.

Lemma emits_only_eval {A} (r : pyres A) : emits_only P (eval r).
Proof. destruct r; constructor. Qed.

Lemma emits_only_exit {A} (c : Z) : emits_only P (@exit A c).
Proof. constructor. Qed.

Lemma emits_only_emit (e : event) : P e -> emits_only P (emit e).
Proof. intros H. repeat constructor. exact H. Qed.

End Emits.

Lemma get_local_metric_events (w : world) (metric : Metric) (k : nat) :
  emits_only local_event (get_local_metric w metric k).
Proof.
  unfold get_local_metric. apply emits_only_for_range.
  - intros i. unfold metric_attempt.
    apply emits_only_bind; [now apply emits_only_emit |]. intros _.
    destruct (metrics_pipeline w metric (metrics w k i)) as [result | rc].
    + apply emits_only_try_except.
      * apply emits_only_bind; [apply emits_only_eval |].
        intros n. apply emits_only_ret.
      * apply emits_only_bind; [apply emits_only_eval |]. intros _.
        apply emits_only_bind; [now apply emits_only_emit |]. intros _.
        apply emits_only_bind; [now apply emits_only_emit |]. intros _.
        apply emits_only_ret.
    + apply emits_only_bind; [now apply emits_only_emit |]. intros _.
      apply emits_only_bind; [now apply emits_only_emit |]. intros _.
      apply emits_only_ret.
  - apply emits_only_bind; [now apply emits_only_emit |]. intros _.
    apply emits_only_exit.
Qed.

(** A local read ends with a value, with exit status 1 or with an
    exception; the model's budget plays no part in it. *)
Lemma get_local_metric_ends (w : world) (metric : Metric) (k : nat) :
  out (get_local_metric w metric k) <> Unfinished /\
  forall c, out (get_local_metric w metric k) = Exited c -> c = 1.
Proof.
  assert (Hatt : forall i, out (metric_attempt w metric k i) <> Unfinished /\
                 forall c, out (metric_attempt w metric k i) <> Exited c).
  { intros i. unfold metric_attempt.
    destruct (metrics_pipeline w metric (metrics w k i)) as [result | rc];
      [| split; [| intros c]; discriminate].
    destruct (nth_error (split result) 1) as [tok |];
      [| split; [| intros c]; discriminate].
    unfold int_of_text.
    destruct (int_literal bytes_isspace tok);
      split; try intros c; discriminate. }
  unfold get_local_metric.
  destruct (for_range_split (metric_attempt w metric k)
              (seq 0 NUM_RETRIES)) as [Hall | (pre & j & post & E & Hpre & Hj)].
  - rewrite for_range_exhausted by assumption.
    split; [discriminate |]. unfold out; simpl. congruence.
  - rewrite E. destruct (Hatt j) as [Hu He].
    destruct (out (metric_attempt w metric k j)) as [[| a] | c | e | ] eqn:Ej;
      try congruence.
    + rewrite (for_range_returns _ _ pre post j a) by assumption.
      split; [| intros c]; discriminate.
    + rewrite (for_range_raises _ _ pre post j e) by assumption.
      split; [| intros c]; discriminate.
Qed.

(** ** The polling loop *)

Lemma local_events_no_stall (tr : list event) :
  Forall local_event tr -> epoch_stall_triggered tr = false.
Proof.
  induction 1 as [| e tr He _ IH]; [reflexivity |].
  simpl. rewrite IH. destruct e as [| | | | []]; simpl in *; tauto.
Qed.

Section Polling.

Variable w : world.

Local Arguments get_local_metric : simpl never.

(** The round of the loop, case by case on what the two local reads
    yield. *)
Lemma poll_once_spec (s : loop_state) :
  let rc := get_local_metric w CHECKPOINT (reads s) in
  let re := get_local_metric w EPOCH (S (reads s)) in
  let t := clock w (ticks s) in
  poll_once w s =
  match out rc with
  | Returned cp =>
      if cp =? current_checkpoint s then
        ((Sleep 10 :: trace rc ++
          [Print (MsgCheckpointStuck (current_checkpoint s))])%list, Exited 1)
      else
        match out re with
        | Returned e =>
            if current_epoch s <? e then
              ((Sleep 10 :: trace rc ++ trace re ++
                [Print (MsgNewEpoch e); Now t; Print (MsgNewCheckpoint cp)])%list,
               Returned {| current_epoch := e;
                           current_checkpoint := cp;
                           current_time := t;
                           reads := S (S (reads s));
                           ticks := S (ticks s) |})
            else if longer_than (t - current_time s) EPOCH_STUCK_THRESHOLD_SEC then
              ((Sleep 10 :: trace rc ++ trace re ++
                [Now t; Print (MsgEpochStuck (current_epoch s))])%list,
               Exited 1)
            else
              ((Sleep 10 :: trace rc ++ trace re ++
                [Now t; Print (MsgNewCheckpoint cp)])%list,
               Returned {| current_epoch := current_epoch s;
                           current_checkpoint := cp;
                           current_time := current_time s;
                           reads := S (S (reads s));
                           ticks := S (ticks s) |})
        | Exited c => ((Sleep 10 :: trace rc ++ trace re)%list, Exited c)
        | Raised x => ((Sleep 10 :: trace rc ++ trace re)%list, Raised x)
        | Unfinished => ((Sleep 10 :: trace rc ++ trace re)%list, Unfinished)
        end
  | Exited c => (Sleep 10 :: trace rc, Exited c)
  | Raised x => (Sleep 10 :: trace rc, Raised x)
  | Unfinished => (Sleep 10 :: trace rc, Unfinished)
  end.
Proof.
  unfold poll_once, out, trace.
  destruct (get_local_metric w CHECKPOINT (reads s)) as [trc [cp | c | x | ]];
    simpl; try reflexivity.
  unfold bind at 1; simpl.
  destruct (cp =? current_checkpoint s); [reflexivity |].
  destruct (get_local_metric w EPOCH (S (reads s))) as [tre [e | c | x | ]];
    simpl; try reflexivity.
  destruct (current_epoch s <? e); [reflexivity |].
  unfold bind, now, emit, ret; simpl.
  destruct (longer_than (clock w (ticks s) - current_time s)
              EPOCH_STUCK_THRESHOLD_SEC); reflexivity.
Qed.


End Polling.


(** ** The epoch stall timer *)

Section EpochPace.

Variable w : world.

Local Arguments get_local_metric : simpl never.

Lemma epoch_reading_shift (r k : nat) :
  epoch_reading w (S (S r)) k = epoch_reading w r (S k).
Proof.
  unfold epoch_reading. do 3 f_equal. lia.
Qed.

Lemma highest_shift (cur : Z) (r k : nat) :
  highest w cur r (S k) =
  highest w (match epoch_reading w r 0 with
           | Returned e => Z.max cur e
           | _ => cur
           end) (S (S r)) k.
Proof.
  induction k as [| k IH]; [reflexivity |].
  change (highest w cur r (S (S k))) with
    (match epoch_reading w r (S k) with
     | Returned e => Z.max (highest w cur r (S k)) e
     | _ => highest w cur r (S k)
     end).
  rewrite IH. simpl highest. now rewrite epoch_reading_shift.
Qed.

Lemma advance_shift (cur cur' : Z) (r j : nat) :
  cur' = match epoch_reading w r 0 with
         | Returned e => Z.max cur e
         | _ => cur
         end ->
  advance w cur r (S j) -> advance w cur' (S (S r)) j.
Proof.
  intros -> (e & He & Hlt). exists e.
  rewrite epoch_reading_shift. split; [assumption |].
  now rewrite <- highest_shift.
Qed.

Lemma paced_shift (cur cur' t0 t0' : Z) (r n k : nat) :
  cur' = match epoch_reading w r 0 with
         | Returned e => Z.max cur e
         | _ => cur
         end ->
  ~ advance w cur r 0 \/ t0' = clock w n ->
  t0 <= t0' ->
  paced w cur t0 r n (S k) -> paced w cur' t0' (S (S r)) (S n) k.
Proof.
  intros Hcur Hzero Ht0 [Hleft | (j & Hj & Hadv & Hclose)];
    unfold paced; replace (k + S n)%nat with (S k + n)%nat by lia.
  - left. lia.
  - destruct j as [| j].
    + destruct Hzero as [Hzero | ->]; [contradiction |].
      left. exact Hclose.
    + right. exists j. split; [lia |]. split.
      * now apply (advance_shift cur).
      * replace (j + S n)%nat with (S j + n)%nat by lia. exact Hclose.
Qed.

(** With a clock that does not run backwards and an epoch that increases
    at least every 19 minutes, no round of the loop reports an epoch
    stall. *)
Lemma paced_never_stalls (fuel : nat) (end_epoch : Z) :
  (forall i j, (i <= j)%nat -> clock w i <= clock w j) ->
  forall s,
    current_time s <= clock w (ticks s) ->
    (forall k, (k < fuel)%nat ->
               paced w (current_epoch s) (current_time s) (reads s) (ticks s) k) ->
    epoch_stall_triggered (trace (polling w fuel end_epoch s)) = false.
Proof.
  intros Hmono. induction fuel as [| f IH]; intros s Ht Hpace.
  - simpl. destruct (current_epoch s <? end_epoch); reflexivity.
  - simpl polling. destruct (current_epoch s <? end_epoch); [| reflexivity].
    pose proof (poll_once_spec w s) as Hspec. simpl in Hspec.
    pose proof (local_events_no_stall _
                  (get_local_metric_events w CHECKPOINT (reads s))) as Hc.
    pose proof (local_events_no_stall _
                  (get_local_metric_events w EPOCH (S (reads s)))) as He.
    unfold epoch_stall_triggered, trace in *.
    assert (Hzero : forall e, out (get_local_metric w EPOCH (S (reads s))) =
                              Returned e ->
                    e <= current_epoch s ->
                    ~ advance w (current_epoch s) (reads s) 0).
    { intros e Hre Hle (e' & He' & Hlt). unfold epoch_reading in He'.
      simpl in He', Hlt. rewrite Hre in He'. injection He' as <-. lia. }
    destruct (out (get_local_metric w CHECKPOINT (reads s)))
      as [cp | c | x | ] eqn:Hrc.
    + destruct (cp =? current_checkpoint s).
      { rewrite Hspec. unfold bind; simpl.
        now rewrite existsb_app, Hc. }
      destruct (out (get_local_metric w EPOCH (S (reads s))))
        as [e | c | x | ] eqn:Hre.
      * destruct (current_epoch s <? e) eqn:Hadv.
        -- apply Z.ltb_lt in Hadv.
           rewrite Hspec. unfold bind; simpl.
           rewrite !existsb_app, Hc, He. simpl.
           apply IH; simpl.
           ++ apply Hmono. lia.
           ++ intros k Hk.
              apply (paced_shift (current_epoch s) _ (current_time s));
                [| now right | assumption | apply Hpace; lia].
              unfold epoch_reading. simpl. rewrite Hre. lia.
        -- apply Z.ltb_ge in Hadv.
           destruct (longer_than _ _) eqn:Hlong.
           ++ exfalso. unfold longer_than, EPOCH_STUCK_THRESHOLD_SEC in Hlong.
              apply Z.ltb_lt in Hlong.
              destruct (Hpace 0%nat) as [Hleft | (j & Hj & Hj0 & _)]; [lia | |].
              ** simpl in Hleft. unfold NINETEEN_MINUTES_US in Hleft. lia.
              ** replace j with 0%nat in Hj0 by lia.
                 exact (Hzero e eq_refl Hadv Hj0).
           ++ rewrite Hspec. unfold bind; simpl.
              rewrite !existsb_app, Hc, He. simpl.
              apply IH; simpl.
              ** transitivity (clock w (ticks s)); [assumption |].
                 apply Hmono. lia.
              ** intros k Hk.
                 apply (paced_shift (current_epoch s) _ (current_time s));
                   [| left; now apply (Hzero e) | lia | apply Hpace; lia].
                 unfold epoch_reading. simpl. rewrite Hre. lia.
      * rewrite Hspec. unfold bind; simpl.
        now rewrite !existsb_app, Hc, He.
      * rewrite Hspec. unfold bind; simpl.
        now rewrite !existsb_app, Hc, He.
      * rewrite Hspec. unfold bind; simpl.
        now rewrite !existsb_app, Hc, He.
    + rewrite Hspec. unfold bind; simpl. exact Hc.
    + rewrite Hspec. unfold bind; simpl. exact Hc.
    + rewrite Hspec. unfold bind; simpl. exact Hc.
Qed.

Lemma checkpoint_reading_shift (r k : nat) :
  checkpoint_reading w (S (S r)) k = checkpoint_reading w r (S k).
Proof.
  unfold checkpoint_reading. do 2 f_equal. lia.
Qed.

(** Rounds without an increase leave the epoch and the timer alone, so
    that the round whose clock reading is more than twenty minutes past
    the timer ends the loop, however many rounds came before it. *)
Lemma stall_after_quiet_rounds (end_epoch : Z) (n : nat) :
  forall (fuel : nat) (cps : nat -> Z) (s : loop_state),
    (n < fuel)%nat ->
    current_epoch s < end_epoch ->
    (forall k, (k <= n)%nat ->
       checkpoint_reading w (reads s) k = Returned (cps k) /\
       cps k <> match k with
                | O => current_checkpoint s
                | S k' => cps k'
                end /\
       exists e, epoch_reading w (reads s) k = Returned e /\
                 e <= current_epoch s) ->
    (forall k, (k < n)%nat ->
       clock w (k + ticks s) - current_time s <=
       EPOCH_STUCK_THRESHOLD_SEC * 1000000) ->
    EPOCH_STUCK_THRESHOLD_SEC * 1000000 <
      clock w (n + ticks s) - current_time s ->
    out (polling w fuel end_epoch s) = Exited 1 /\
    epoch_stall_triggered (trace (polling w fuel end_epoch s)) = true /\
    exists pre,
      trace (polling w fuel end_epoch s) =
      (pre ++ [Now (clock w (n + ticks s));
               Print (MsgEpochStuck (current_epoch s))])%list.
Proof.
  induction n as [| n IH]; intros fuel cps s Hfuel Hlt Hreads Hquiet Hlate;
    (destruct fuel as [| f]; [lia |]);
    simpl polling; pose proof Hlt as Hguard; apply Z.ltb_lt in Hguard;
    rewrite Hguard;
    destruct (Hreads 0%nat) as (Hc & Hne & e & He & Hle); try lia;
    unfold checkpoint_reading, epoch_reading in Hc, He; simpl in Hc, He;
    pose proof (poll_once_spec w s) as Hspec; simpl in Hspec;
    rewrite Hc, He in Hspec;
    apply Z.eqb_neq in Hne; rewrite Hne in Hspec;
    apply Z.ltb_ge in Hle; rewrite Hle in Hspec;
    unfold longer_than in Hspec.
  - change (0 + ticks s)%nat with (ticks s) in Hlate.
    apply Z.ltb_lt in Hlate. rewrite Hlate in Hspec.
    rewrite Hspec. unfold bind, trace, out; simpl.
    split; [reflexivity |]. split.
    + unfold epoch_stall_triggered. rewrite !existsb_app. simpl.
      now rewrite !orb_true_r.
    + exists (Sleep 10 :: fst (get_local_metric w CHECKPOINT (reads s)) ++
              fst (get_local_metric w EPOCH (S (reads s))))%list.
      cbn [app]. now rewrite <- app_assoc.
  - assert (Hq : clock w (ticks s) - current_time s <=
                 EPOCH_STUCK_THRESHOLD_SEC * 1000000)
      by (apply (Hquiet 0%nat); lia).
    apply Z.ltb_ge in Hq. rewrite Hq in Hspec.
    set (s1 := {| current_epoch := current_epoch s;
                  current_checkpoint := cps 0%nat;
                  current_time := current_time s;
                  reads := S (S (reads s));
                  ticks := S (ticks s) |}) in *.
    destruct (IH f (fun k => cps (S k)) s1) as (Hout & Htrig & pre & Hpre).
    + lia.
    + exact Hlt.
    + intros k Hk. destruct (Hreads (S k)) as (Hc' & Hne' & e' & He' & Hle');
        [lia |].
      simpl reads. rewrite checkpoint_reading_shift, epoch_reading_shift.
      split; [assumption |]. split.
      * destruct k; assumption.
      * exists e'. now split.
    + intros k Hk. simpl ticks. simpl current_time.
      replace (k + S (ticks s))%nat with (S k + ticks s)%nat by lia.
      apply Hquiet. lia.
    + simpl ticks. simpl current_time.
      replace (n + S (ticks s))%nat with (S n + ticks s)%nat by lia.
      exact Hlate.
    + rewrite Hspec. rewrite (bind_returned _ _ s1) by reflexivity.
      unfold trace at 1 3 5, out at 1. cbn [fst snd].
      split; [exact Hout |]. split.
      * unfold epoch_stall_triggered in *.
        rewrite existsb_app, Htrig. apply orb_true_r.
      * exists ((Sleep 10 ::
                 trace (get_local_metric w CHECKPOINT (reads s)) ++
                 trace (get_local_metric w EPOCH (S (reads s))) ++
                 [Now (clock w (ticks s));
                  Print (MsgNewCheckpoint (cps 0%nat))]) ++ pre)%list.
        rewrite Hpre. simpl ticks. simpl current_epoch.
        replace (n + S (ticks s))%nat with (S n + ticks s)%nat by lia.
        now rewrite <- !app_assoc.
Qed.

(** When the epoch readings never go down, the highest epoch seen before
    a round is the reading of the round before, so that a reading is an
    increase exactly when it exceeds the previous one. *)
Lemma highest_is_previous (cur : Z) (r k : nat) (e : Z) :
  (forall i, (i <= k)%nat -> exists v, epoch_reading w r i = Returned v) ->
  (forall v, epoch_reading w r 0 = Returned v -> cur <= v) ->
  (forall i v v', (S i <= k)%nat ->
     epoch_reading w r i = Returned v ->
     epoch_reading w r (S i) = Returned v' -> v <= v') ->
  epoch_reading w r k = Returned e ->
  highest w cur r (S k) = e.
Proof.
  revert e. induction k as [| k IH]; intros e Hall Hfirst Hup He.
  - simpl. rewrite He. specialize (Hfirst e He). lia.
  - destruct (Hall k) as [v Hv]; [lia |].
    assert (Hprev : highest w cur r (S k) = v).
    { apply IH; auto. intros i v0 v0' Hi. apply Hup. lia. }
    change (highest w cur r (S (S k))) with
      (match epoch_reading w r (S k) with
       | Returned e => Z.max (highest w cur r (S k)) e
       | _ => highest w cur r (S k)
       end).
    rewrite He, Hprev. specialize (Hup k v e (le_n _) Hv He). lia.
Qed.

Lemma advance_over_previous (cur : Z) (r k : nat) (e' e : Z) :
  (forall i, (i <= k)%nat -> exists v, epoch_reading w r i = Returned v) ->
  (forall v, epoch_reading w r 0 = Returned v -> cur <= v) ->
  (forall i v v', (S i <= k)%nat ->
     epoch_reading w r i = Returned v ->
     epoch_reading w r (S i) = Returned v' -> v <= v') ->
  epoch_reading w r k = Returned e' ->
  epoch_reading w r (S k) = Returned e ->
  (e' < e <-> advance w cur r (S k)).
Proof.
  intros Hall Hfirst Hup He' He.
  pose proof (highest_is_previous cur r k e' Hall Hfirst Hup He') as Hh.
  split.
  - intros Hlt. exists e. split; [assumption |]. now rewrite Hh.
  - intros (e0 & He0 & Hlt). rewrite He in He0. injection He0 as <-.
    now rewrite Hh in Hlt.
Qed.

End EpochPace.

(** C5: in a round of the polling loop whose epoch reading is no
    increase, more than 20 minutes on the clock since the timer was set
    end the process with status 1 and the epoch stall message; a reading
    that is an increase sets the timer to the clock reading of the round;
    and as long as the clock does not run backwards and every round comes
    at most 19 minutes after an increase (or after the loop was entered),
    no epoch stall is reported, however many rounds are run.  A round
    without an increase that comes within the 20 minutes hands the epoch
    and the timer on unchanged; so the loop, after any number of such
    rounds, ends the process with status 1 and the epoch stall message
    at the first round whose clock reading is more than 20 minutes past
    the timer. *)
Theorem epoch_stall_timer (w : world) (s : loop_state) :
  (forall cp e,
     out (get_local_metric w CHECKPOINT (reads s)) = Returned cp ->
     cp <> current_checkpoint s ->
     out (get_local_metric w EPOCH (S (reads s))) = Returned e ->
     e <= current_epoch s ->
     EPOCH_STUCK_THRESHOLD_SEC * 1000000 < clock w (ticks s) - current_time s ->
     poll_once w s =
       ((Sleep 10 :: trace (get_local_metric w CHECKPOINT (reads s)) ++
         trace (get_local_metric w EPOCH (S (reads s))) ++
         [Now (clock w (ticks s)); Print (MsgEpochStuck (current_epoch s))])%list,
        Exited 1)) /\
  (forall cp e,
     out (get_local_metric w CHECKPOINT (reads s)) = Returned cp ->
     cp <> current_checkpoint s ->
     out (get_local_metric w EPOCH (S (reads s))) = Returned e ->
     current_epoch s < e ->
     exists s', out (poll_once w s) = Returned s' /\
                current_epoch s' = e /\
                current_time s' = clock w (ticks s)) /\
  (forall fuel end_epoch,
     (forall i j, (i <= j)%nat -> clock w i <= clock w j) ->
     current_time s <= clock w (ticks s) ->
     (forall k, (k < fuel)%nat ->
                paced w (current_epoch s) (current_time s) (reads s) (ticks s) k) ->
     epoch_stall_triggered (trace (polling w fuel end_epoch s)) = false) /\
  (forall cp e,
     out (get_local_metric w CHECKPOINT (reads s)) = Returned cp ->
     cp <> current_checkpoint s ->
     out (get_local_metric w EPOCH (S (reads s))) = Returned e ->
     e <= current_epoch s ->
     clock w (ticks s) - current_time s <= EPOCH_STUCK_THRESHOLD_SEC * 1000000 ->
     exists s', out (poll_once w s) = Returned s' /\
                current_epoch s' = current_epoch s /\
                current_time s' = current_time s) /\
  (forall n fuel end_epoch cps,
     (n < fuel)%nat ->
     current_epoch s < end_epoch ->
     (forall k, (k <= n)%nat ->
        checkpoint_reading w (reads s) k = Returned (cps k) /\
        cps k <> match k with
                 | O => current_checkpoint s
                 | S k' => cps k'
                 end /\
        exists e, epoch_reading w (reads s) k = Returned e /\
                  e <= current_epoch s) ->
     (forall k, (k < n)%nat ->
        clock w (k + ticks s) - current_time s <=
        EPOCH_STUCK_THRESHOLD_SEC * 1000000) ->
     EPOCH_STUCK_THRESHOLD_SEC * 1000000 <
       clock w (n + ticks s) - current_time s ->
     out (polling w fuel end_epoch s) = Exited 1 /\
     epoch_stall_triggered (trace (polling w fuel end_epoch s)) = true /\
     exists pre,
       trace (polling w fuel end_epoch s) =
       (pre ++ [Now (clock w (n + ticks s));
                Print (MsgEpochStuck (current_epoch s))])%list).
Proof.
  pose proof (poll_once_spec w s) as Hspec. simpl in Hspec.
  split; [| split; [| split; [| split]]].
  - intros cp e Hrc Hne Hre Hle Hlong.
    rewrite Hrc, Hre in Hspec.
    apply Z.eqb_neq in Hne. rewrite Hne in Hspec.
    apply Z.ltb_ge in Hle. rewrite Hle in Hspec.
    unfold longer_than in Hspec. apply Z.ltb_lt in Hlong.
    now rewrite Hlong in Hspec.
  - intros cp e Hrc Hne Hre Hlt.
    rewrite Hrc, Hre in Hspec.
    apply Z.eqb_neq in Hne. rewrite Hne in Hspec.
    apply Z.ltb_lt in Hlt. rewrite Hlt in Hspec.
    rewrite Hspec. eexists. split; [reflexivity |]. split; reflexivity.
  - intros fuel end_epoch Hmono Ht Hpace.
    now apply paced_never_stalls.
  - intros cp e Hrc Hne Hre Hle Hshort.
    rewrite Hrc, Hre in Hspec.
    apply Z.eqb_neq in Hne. rewrite Hne in Hspec.
    apply Z.ltb_ge in Hle. rewrite Hle in Hspec.
    unfold longer_than in Hspec. apply Z.ltb_ge in Hshort.
    rewrite Hshort in Hspec. rewrite Hspec.
    eexists. split; [reflexivity |]. split; reflexivity.
  - intros n fuel end_epoch cps. apply stall_after_quiet_rounds.
Qed.

Lemma epoch_stall_timer_witness :
  poll_once epoch_stuck
    {| current_epoch := 10; current_checkpoint := 500; current_time := 0;
       reads := 0; ticks := 0 |} =
    ([Sleep 10; LocalCall CHECKPOINT; LocalCall EPOCH; Now 1200000001;
      Print (MsgEpochStuck 10)], Exited 1) /\
  (exists s',
     out (poll_once sync_10_12
            {| current_epoch := 10; current_checkpoint := 102;
               current_time := 0; reads := 5; ticks := 2 |}) = Returned s' /\
     current_epoch s' = 11 /\ current_time s' = 20000000) /\
  epoch_stall_triggered
    (trace (polling sync_10_12 3 12
              {| current_epoch := 10; current_checkpoint := 100;
                 current_time := 0; reads := 3; ticks := 1 |})) = false /\
  (exists s',
     out (poll_once stalls_later
            {| current_epoch := 10; current_checkpoint := 500;
               current_time := 0; reads := 0; ticks := 0 |}) = Returned s' /\
     current_epoch s' = 10 /\ current_time s' = 0) /\
  out (polling stalls_later 2 12
         {| current_epoch := 10; current_checkpoint := 500;
            current_time := 0; reads := 0; ticks := 0 |}) = Exited 1.
Proof.
  split; [| split; [| split; [| split]]].
  - apply (proj1 (epoch_stall_timer epoch_stuck
                    {| current_epoch := 10; current_checkpoint := 500;
                       current_time := 0; reads := 0; ticks := 0 |})
             501 10); try reflexivity; simpl; lia.
  - apply (proj1 (proj2 (epoch_stall_timer sync_10_12
                    {| current_epoch := 10; current_checkpoint := 102;
                       current_time := 0; reads := 5; ticks := 2 |}))
             103 11); try reflexivity; simpl; lia.
  - apply (proj2 (proj2 (epoch_stall_timer sync_10_12
                    {| current_epoch := 10; current_checkpoint := 100;
                       current_time := 0; reads := 3; ticks := 1 |}))).
    + intros i j Hij. simpl. lia.
    + simpl. lia.
    + intros k Hk. left. unfold NINETEEN_MINUTES_US. simpl clock.
      simpl current_time. lia.
  - apply (proj1 (proj2 (proj2 (proj2 (epoch_stall_timer stalls_later
                    {| current_epoch := 10; current_checkpoint := 500;
                       current_time := 0; reads := 0; ticks := 0 |}))))
             501 10); try reflexivity; simpl; lia.
  - apply (proj2 (proj2 (proj2 (proj2 (epoch_stall_timer stalls_later
                    {| current_epoch := 10; current_checkpoint := 500;
                       current_time := 0; reads := 0; ticks := 0 |}))))
             1%nat 2%nat 12 (fun k => 501 + Z.of_nat k)).
    + lia.
    + simpl. lia.
    + intros k Hk.
      destruct k as [| [| k]]; [| | lia];
        (split; [reflexivity |]); (split; [simpl; lia |]);
        exists 10; (split; [reflexivity | simpl; lia]).
    + intros k Hk. replace k with 0%nat by lia. simpl. lia.
    + simpl. lia.
Defined.

(** ** The startup wait *)

Section Startup.

Variable w : world.

Local Arguments get_local_metric : simpl never.

Lemma await_poll_spec (start : Z) (k i : nat) :
  let r := get_local_metric w CHECKPOINT (k + i) in
  await_poll w start k i =
  match out r with
  | Returned v =>
      if v =? start
      then ((trace r ++ [Print MsgAwaiting; Sleep 1])%list, Returned Continue)
      else ((trace r ++ [Print (MsgStarted i)])%list,
            Returned (Return (S (k + i))))
  | Exited c => (trace r, Exited c)
  | Raised x => (trace r, Raised x)
  | Unfinished => (trace r, Unfinished)
  end.
Proof.
  unfold await_poll, out, trace.
  destruct (get_local_metric w CHECKPOINT (k + i)) as [tr [v | c | x | ]];
    simpl; try reflexivity.
  unfold bind at 1; simpl. destruct (v =? start); reflexivity.
Qed.

Lemma seq_split (j n : nat) :
  (j < n)%nat -> seq 0 n = (seq 0 j ++ j :: seq (S j) (n - S j))%list.
Proof.
  intros Hj. replace n with (j + S (n - S j))%nat at 1 by lia.
  now rewrite seq_app.
Qed.

(** Once the two startup reads and [await_started] have returned, the
    polling loop and the report follow. *)
Lemma sync_to_after_startup (fuel : nat) (end_epoch e0 c0 : Z) (k' : nat) :
  out (get_local_metric w EPOCH 0) = Returned e0 ->
  out (get_local_metric w CHECKPOINT 1) = Returned c0 ->
  out (await_started w c0 2) = Returned k' ->
  sync_to w fuel end_epoch =
    ((Print (MsgTarget end_epoch) ::
      trace (get_local_metric w EPOCH 0) ++
      Print (MsgLocalEpoch e0) ::
      trace (get_local_metric w CHECKPOINT 1) ++
      Print (MsgLocalCheckpoint c0) ::
      trace (await_started w c0 2) ++
      trace (poll_and_report w fuel end_epoch e0 c0 k'))%list,
     out (poll_and_report w fuel end_epoch e0 c0 k')).
Proof.
  intros He0 Hc0 Hk'. unfold sync_to.
  rewrite (bind_returned (print _) _ tt) by reflexivity.
  rewrite (bind_returned (get_local_metric w EPOCH 0) _ e0) by assumption.
  rewrite (bind_returned (print _) _ tt) by reflexivity.
  rewrite (bind_returned (get_local_metric w CHECKPOINT 1) _ c0) by assumption.
  rewrite (bind_returned (print _) _ tt) by reflexivity.
  rewrite (bind_returned (await_started w c0 2) _ k') by assumption.
  unfold trace, out; simpl. reflexivity.
Qed.

(** C9: [await_started] polls the checkpoint at most 60 times, a second
    apart; it returns at the first reading that differs from
    [start_checkpoint]; after 60 readings without change it prints the
    startup failure and returns all the same.  It has no exit of its
    own: when it does not return, one of its local reads has ended the
    process.  Whatever it returns, [main] goes on with the polling
    loop. *)
Theorem await_started_never_fatal (start : Z) (k : nat) :
  (forall j v,
     (j < START_AWAIT_TIME_SEC)%nat ->
     (forall i, (i < j)%nat ->
                out (get_local_metric w CHECKPOINT (k + i)) = Returned start) ->
     out (get_local_metric w CHECKPOINT (k + j)) = Returned v ->
     v <> start ->
     await_started w start k =
       ((rounds (await_poll w start k) (seq 0 j) ++
         trace (get_local_metric w CHECKPOINT (k + j)) ++
         [Print (MsgStarted j)])%list,
        Returned (S (k + j))) /\
     forall i, (i < j)%nat ->
       await_poll w start k i =
         ((trace (get_local_metric w CHECKPOINT (k + i)) ++
           [Print MsgAwaiting; Sleep 1])%list, Returned Continue)) /\
  ((forall i, (i < START_AWAIT_TIME_SEC)%nat ->
              out (get_local_metric w CHECKPOINT (k + i)) = Returned start) ->
   await_started w start k =
     ((rounds (await_poll w start k) (seq 0 START_AWAIT_TIME_SEC) ++
       [Print MsgStartFailed])%list,
      Returned (k + START_AWAIT_TIME_SEC)%nat)) /\
  ((exists k', out (await_started w start k) = Returned k' /\
               (k < k' <= k + START_AWAIT_TIME_SEC)%nat) \/
   (exists i, (i < START_AWAIT_TIME_SEC)%nat /\
      ((exists c, out (get_local_metric w CHECKPOINT (k + i)) = Exited c /\
                  out (await_started w start k) = Exited c) \/
       (exists x, out (get_local_metric w CHECKPOINT (k + i)) = Raised x /\
                  out (await_started w start k) = Raised x)))) /\
  (forall fuel end_epoch e0 c0 k',
     out (get_local_metric w EPOCH 0) = Returned e0 ->
     out (get_local_metric w CHECKPOINT 1) = Returned c0 ->
     out (await_started w c0 2) = Returned k' ->
     sync_to w fuel end_epoch =
       ((Print (MsgTarget end_epoch) ::
         trace (get_local_metric w EPOCH 0) ++
         Print (MsgLocalEpoch e0) ::
         trace (get_local_metric w CHECKPOINT 1) ++
         Print (MsgLocalCheckpoint c0) ::
         trace (await_started w c0 2) ++
         trace (poll_and_report w fuel end_epoch e0 c0 k'))%list,
        out (poll_and_report w fuel end_epoch e0 c0 k'))).
Proof.
  assert (Hwait : forall i,
            out (get_local_metric w CHECKPOINT (k + i)) = Returned start ->
            await_poll w start k i =
              ((trace (get_local_metric w CHECKPOINT (k + i)) ++
                [Print MsgAwaiting; Sleep 1])%list, Returned Continue)).
  { intros i Hi. pose proof (await_poll_spec start k i) as Hs. simpl in Hs.
    rewrite Hi, Z.eqb_refl in Hs. exact Hs. }
  split; [| split; [| split]].
  - intros j v Hj Hpre Hv Hne. split.
    + unfold await_started. rewrite (seq_split j) by assumption.
      pose proof (await_poll_spec start k j) as Hs. simpl in Hs.
      apply Z.eqb_neq in Hne. rewrite Hv, Hne in Hs.
      rewrite (for_range_returns _ _ _ _ j (S (k + j))).
      * rewrite Hs. reflexivity.
      * intros i Hi. apply in_seq in Hi. rewrite Hwait; [reflexivity |].
        apply Hpre. lia.
      * now rewrite Hs.
    + intros i Hi. apply Hwait. now apply Hpre.
  - intros Hall. unfold await_started.
    rewrite for_range_exhausted; [reflexivity |].
    intros i Hi. apply in_seq in Hi. rewrite Hwait; [reflexivity |].
    apply Hall. lia.
  - unfold await_started.
    destruct (for_range_split (await_poll w start k)
                (seq 0 START_AWAIT_TIME_SEC))
      as [Hall | (pre & j & post & E & Hpre & Hj)].
    + left. exists (k + START_AWAIT_TIME_SEC)%nat.
      rewrite for_range_exhausted by assumption.
      split; [reflexivity |]. unfold START_AWAIT_TIME_SEC. lia.
    + assert (Hin : In j (seq 0 START_AWAIT_TIME_SEC)).
      { rewrite E. apply in_or_app. right. now left. }
      apply in_seq in Hin. rewrite E.
      pose proof (await_poll_spec start k j) as Hs. simpl in Hs.
      destruct (get_local_metric_ends w CHECKPOINT (k + j)) as [Hfin _].
      destruct (out (get_local_metric w CHECKPOINT (k + j)))
        as [v | c | x | ] eqn:Hr.
      * destruct (v =? start); [rewrite Hs in Hj; now destruct Hj |].
        left. exists (S (k + j)).
        rewrite (for_range_returns _ _ pre post j (S (k + j)));
          [| assumption | now rewrite Hs].
        split; [reflexivity | lia].
      * right. exists j. split; [lia |]. left. exists c.
        split; [exact Hr |].
        rewrite (for_range_exits _ _ pre post j c);
          [reflexivity | assumption | now rewrite Hs].
      * right. exists j. split; [lia |]. right. exists x.
        split; [exact Hr |].
        rewrite (for_range_raises _ _ pre post j x);
          [reflexivity | assumption | now rewrite Hs].
      * now destruct Hfin.
  - intros fuel end_epoch e0 c0 k'. apply sync_to_after_startup.
Qed.

End Startup.

Lemma await_started_never_fatal_witness :
  await_started sync_10_12 100 2 =
    ([LocalCall CHECKPOINT; Print (MsgStarted 0)], Returned 3%nat) /\
  out (await_started never_starts 100 2) = Returned 62%nat /\
  out (sync_to sync_10_12 3 12) = Exited 0.
Proof.
  split; [| split].
  - apply (proj1 (await_started_never_fatal sync_10_12 100 2) 0%nat 101);
      try reflexivity; try discriminate.
    + unfold START_AWAIT_TIME_SEC. lia.
    + intros i Hi. lia.
  - rewrite (proj1 (proj2 (await_started_never_fatal never_starts 100 2)));
      [reflexivity |].
    intros i Hi. reflexivity.
  - rewrite (proj2 (proj2 (proj2 (await_started_never_fatal sync_10_12 100 2)))
               3%nat 12 10 100 3%nat); reflexivity.
Defined.

(** ** Reaching the target *)

Section Report.

Variable w : world.

Local Arguments get_local_metric : simpl never.

Lemma polling_done (fuel : nat) (end_epoch : Z) (s : loop_state) :
  end_epoch <= current_epoch s ->
  polling w fuel end_epoch s = ([], Returned s).
Proof.
  intros H. apply Z.ltb_ge in H. destruct fuel; simpl; now rewrite H.
Qed.

Lemma polling_round (fuel : nat) (end_epoch : Z) (s : loop_state) :
  current_epoch s < end_epoch ->
  polling w (S fuel) end_epoch s =
  bind (poll_once w s) (polling w fuel end_epoch).
Proof.
  intros H. apply Z.ltb_lt in H. simpl. now rewrite H.
Qed.

Lemma polling_returned (fuel : nat) (end_epoch : Z) :
  forall s s',
    out (polling w fuel end_epoch s) = Returned s' ->
    end_epoch <= current_epoch s'.
Proof.
  induction fuel as [| f IH]; intros s s'; simpl;
    destruct (current_epoch s <? end_epoch) eqn:Hlt.
  - discriminate.
  - intros [= <-]. now apply Z.ltb_ge.
  - destruct (poll_once w s) as [tr [s1 | c | x | ]]; unfold bind; simpl;
      try discriminate.
    apply IH.
  - intros [= <-]. now apply Z.ltb_ge.
Qed.

Lemma poll_and_report_returned (fuel : nat) (end_epoch e0 c0 : Z) (k : nat)
      (s : loop_state) :
  out (polling w fuel end_epoch
         {| current_epoch := e0; current_checkpoint := c0;
            current_time := clock w 0; reads := k; ticks := 1 |}) =
    Returned s ->
  poll_and_report w fuel end_epoch e0 c0 k =
    ((Now (clock w 0) ::
      trace (polling w fuel end_epoch
               {| current_epoch := e0; current_checkpoint := c0;
                  current_time := clock w 0; reads := k; ticks := 1 |}) ++
      [Now (clock w (ticks s)); Print MsgRule;
       Print (MsgSynced end_epoch e0 (current_checkpoint s - c0)
                        (clock w (ticks s) - clock w 0))])%list,
     Exited 0).
Proof.
  intros Hs. unfold poll_and_report.
  rewrite (bind_returned (now w 0) _ (clock w 0)) by reflexivity.
  rewrite (bind_returned (polling _ _ _ _) _ s) by assumption.
  reflexivity.
Qed.

(** C6: the polling loop runs a round while [current_epoch < end_epoch]
    and is left exactly when [current_epoch >= end_epoch]; the process
    then reads the clock, prints the report (target and start epoch, the
    checkpoints gained, the time since the clock reading taken when the
    loop was entered) and exits with status 0.  With readings 10, 10, 11,
    12 of the epoch and the target 12, the run ends with status 0 and
    reports the sync from epoch 10 to 12. *)
Theorem polling_reaches_target :
  (forall fuel end_epoch s,
     end_epoch <= current_epoch s ->
     polling w fuel end_epoch s = ([], Returned s)) /\
  (forall fuel end_epoch s,
     current_epoch s < end_epoch ->
     polling w (S fuel) end_epoch s =
     bind (poll_once w s) (polling w fuel end_epoch)) /\
  (forall fuel end_epoch s s',
     out (polling w fuel end_epoch s) = Returned s' ->
     end_epoch <= current_epoch s') /\
  (forall fuel end_epoch e0 c0 k s,
     out (polling w fuel end_epoch
            {| current_epoch := e0; current_checkpoint := c0;
               current_time := clock w 0; reads := k; ticks := 1 |}) =
       Returned s ->
     poll_and_report w fuel end_epoch e0 c0 k =
       ((Now (clock w 0) ::
         trace (polling w fuel end_epoch
                  {| current_epoch := e0; current_checkpoint := c0;
                     current_time := clock w 0; reads := k; ticks := 1 |}) ++
         [Now (clock w (ticks s)); Print MsgRule;
          Print (MsgSynced end_epoch e0 (current_checkpoint s - c0)
                           (clock w (ticks s) - clock w 0))])%list,
        Exited 0)) /\
  main sync_10_12 3 ["--end-epoch=12"] =
    ([Print (MsgTarget 12);
      LocalCall EPOCH; Print (MsgLocalEpoch 10);
      LocalCall CHECKPOINT; Print (MsgLocalCheckpoint 100);
      LocalCall CHECKPOINT; Print (MsgStarted 0);
      Now 0;
      Sleep 10; LocalCall CHECKPOINT; LocalCall EPOCH;
      Now 10000000; Print (MsgNewCheckpoint 102);
      Sleep 10; LocalCall CHECKPOINT; LocalCall EPOCH;
      Print (MsgNewEpoch 11); Now 20000000; Print (MsgNewCheckpoint 103);
      Sleep 10; LocalCall CHECKPOINT; LocalCall EPOCH;
      Print (MsgNewEpoch 12); Now 30000000; Print (MsgNewCheckpoint 104);
      Now 40000000; Print MsgRule; Print (MsgSynced 12 10 4 40000000)],
     Exited 0).
Proof.
  split; [| split; [| split; [| split]]].
  - apply polling_done.
  - apply polling_round.
  - apply polling_returned.
  - apply poll_and_report_returned.
  - reflexivity.
Qed.

(** C10: when the epoch read at startup has already reached the target,
    no round of the polling loop runs: after the startup wait there are
    only the two clock readings and the report, with no sleep and no
    local read, the process exits with status 0, and the report counts 0
    checkpoints. *)
Theorem already_synced (fuel : nat) (end_epoch e0 c0 : Z) (k' : nat) :
  out (get_local_metric w EPOCH 0) = Returned e0 ->
  out (get_local_metric w CHECKPOINT 1) = Returned c0 ->
  out (await_started w c0 2) = Returned k' ->
  end_epoch <= e0 ->
  sync_to w fuel end_epoch =
    ((Print (MsgTarget end_epoch) ::
      trace (get_local_metric w EPOCH 0) ++
      Print (MsgLocalEpoch e0) ::
      trace (get_local_metric w CHECKPOINT 1) ++
      Print (MsgLocalCheckpoint c0) ::
      trace (await_started w c0 2) ++
      [Now (clock w 0); Now (clock w 1); Print MsgRule;
       Print (MsgSynced end_epoch e0 0 (clock w 1 - clock w 0))])%list,
     Exited 0).
Proof.
  intros He0 Hc0 Hk' Hle.
  rewrite (sync_to_after_startup w fuel end_epoch e0 c0 k') by assumption.
  pose (s0 := {| current_epoch := e0; current_checkpoint := c0;
                 current_time := clock w 0; reads := k'; ticks := 1 |}).
  assert (Hdone : polling w fuel end_epoch s0 = ([], Returned s0))
    by now apply polling_done.
  rewrite (poll_and_report_returned fuel end_epoch e0 c0 k' s0)
    by (fold s0; now rewrite Hdone).
  fold s0. rewrite Hdone. unfold trace, out; simpl.
  now rewrite Z.sub_diag.
Qed.

End Report.

Lemma polling_reaches_target_witness :
  poll_and_report sync_10_12 3 12 10 100 3 =
    ([Now 0;
      Sleep 10; LocalCall CHECKPOINT; LocalCall EPOCH;
      Now 10000000; Print (MsgNewCheckpoint 102);
      Sleep 10; LocalCall CHECKPOINT; LocalCall EPOCH;
      Print (MsgNewEpoch 11); Now 20000000; Print (MsgNewCheckpoint 103);
      Sleep 10; LocalCall CHECKPOINT; LocalCall EPOCH;
      Print (MsgNewEpoch 12); Now 30000000; Print (MsgNewCheckpoint 104);
      Now 40000000; Print MsgRule; Print (MsgSynced 12 10 4 40000000)],
     Exited 0) /\
  polling sync_10_12 0 12
    {| current_epoch := 12; current_checkpoint := 104; current_time := 0;
       reads := 9; ticks := 4 |} =
    ([], Returned {| current_epoch := 12; current_checkpoint := 104;
                     current_time := 0; reads := 9; ticks := 4 |}).
Proof.
  destruct (polling_reaches_target sync_10_12)
    as (Hdone & _ & _ & Hreport & _).
  split.
  - rewrite (Hreport 3%nat 12 10 100 3%nat
               {| current_epoch := 12; current_checkpoint := 104;
                  current_time := 30000000; reads := 9; ticks := 4 |});
      reflexivity.
  - apply Hdone. simpl. lia.
Defined.

Lemma already_synced_witness :
  sync_to at_target 0 12 =
    ([Print (MsgTarget 12);
      LocalCall EPOCH; Print (MsgLocalEpoch 12);
      LocalCall CHECKPOINT; Print (MsgLocalCheckpoint 100);
      LocalCall CHECKPOINT; Print (MsgStarted 0);
      Now 5; Now 6; Print MsgRule; Print (MsgSynced 12 12 0 1)],
     Exited 0).
Proof.
  apply (already_synced at_target 0 12 12 100 3);
    solve [reflexivity | simpl; lia].
Defined.

(** ** The target epoch *)

Lemma emits_only_weaken {A} (P Q : event -> Prop) (m : W A) :
  (forall e, P e -> Q e) -> emits_only P m -> emits_only Q m.
Proof.
  intros HPQ. unfold emits_only. apply Forall_impl. exact HPQ.
Qed.

Section Target.

Variable w : world.

Lemma get_local_metric_not_remote (metric : Metric) (k : nat) :
  emits_only not_remote (get_local_metric w metric k).
Proof.
  apply (emits_only_weaken local_event); [| apply get_local_metric_events].
  intros [| | | | []]; simpl; tauto.
Qed.

Lemma await_started_not_remote (start : Z) (k : nat) :
  emits_only not_remote (await_started w start k).
Proof.
  unfold await_started. apply emits_only_for_range.
  - intros i. unfold await_poll.
    apply emits_only_bind; [apply get_local_metric_not_remote |].
    intros v. destruct (negb (v =? start)).
    + apply emits_only_bind; [now apply emits_only_emit |]. intros _.
      apply emits_only_ret.
    + apply emits_only_bind; [now apply emits_only_emit |]. intros _.
      apply emits_only_bind; [now apply emits_only_emit |]. intros _.
      apply emits_only_ret.
  - apply emits_only_bind; [now apply emits_only_emit |]. intros _.
    apply emits_only_ret.
Qed.

Lemma now_not_remote (n : nat) : emits_only not_remote (now w n).
Proof.
  unfold now. apply emits_only_bind; [now apply emits_only_emit |].
  intros _. apply emits_only_ret.
Qed.

Lemma poll_once_not_remote (s : loop_state) :
  emits_only not_remote (poll_once w s).
Proof.
  unfold poll_once.
  apply emits_only_bind; [now apply emits_only_emit |]. intros _.
  apply emits_only_bind; [apply get_local_metric_not_remote |]. intros cp.
  destruct (cp =? current_checkpoint s).
  - apply emits_only_bind; [now apply emits_only_emit |]. intros _.
    apply emits_only_exit.
  - apply emits_only_bind; [apply get_local_metric_not_remote |]. intros e.
    apply emits_only_bind.
    + destruct (current_epoch s <? e).
      * apply emits_only_bind; [now apply emits_only_emit |]. intros _.
        apply emits_only_bind; [apply now_not_remote |]. intros t.
        apply emits_only_ret.
      * apply emits_only_bind; [apply now_not_remote |]. intros t.
        destruct (longer_than _ _).
        -- apply emits_only_bind; [now apply emits_only_emit |]. intros _.
           apply emits_only_exit.
        -- apply emits_only_ret.
    + intros s'.
      apply emits_only_bind; [now apply emits_only_emit |]. intros _.
      apply emits_only_ret.
Qed.

Lemma polling_not_remote (fuel : nat) (end_epoch : Z) :
  forall s, emits_only not_remote (polling w fuel end_epoch s).
Proof.
  induction fuel as [| f IH]; intros s; simpl;
    destruct (current_epoch s <? end_epoch); try constructor.
  apply emits_only_bind; [apply poll_once_not_remote | apply IH].
Qed.

Lemma sync_to_not_remote (fuel : nat) (end_epoch : Z) :
  emits_only not_remote (sync_to w fuel end_epoch).
Proof.
  unfold sync_to.
  apply emits_only_bind; [now apply emits_only_emit |]. intros _.
  apply emits_only_bind; [apply get_local_metric_not_remote |]. intros e0.
  apply emits_only_bind; [now apply emits_only_emit |]. intros _.
  apply emits_only_bind; [apply get_local_metric_not_remote |]. intros c0.
  apply emits_only_bind; [now apply emits_only_emit |]. intros _.
  apply emits_only_bind; [apply await_started_not_remote |]. intros k.
  unfold poll_and_report.
  apply emits_only_bind; [apply now_not_remote |]. intros t0.
  apply emits_only_bind; [apply polling_not_remote |]. intros s.
  apply emits_only_bind; [apply now_not_remote |]. intros t1.
  apply emits_only_bind; [now apply emits_only_emit |]. intros _.
  apply emits_only_bind; [now apply emits_only_emit |]. intros _.
  apply emits_only_exit.
Qed.

(** Once an [--end-epoch] option has been seen, the loop over the options
    ends with a target or with the exception of [int]. *)
Lemma scan_options_end_epoch (opts : list (string * string)) :
  forall env e env' r,
    scan_options opts env e = Ok (env', r) ->
    In "--end-epoch" (map fst opts) \/ (exists n, e = Some n) ->
    exists n, r = Some n.
Proof.
  induction opts as [| [opt arg] opts IH]; intros env e env' r; simpl.
  - intros [= _ <-] [[] | H]. exact H.
  - destruct (String.eqb_spec opt "--env") as [-> | Hne].
    + intros Hs [[Habs | Hin] | He]; [discriminate | |]; eauto.
    + destruct (String.eqb_spec opt "--end-epoch") as [-> | Hne'].
      * destruct (int_of_text str_isspace arg) as [n | x]; [| discriminate].
        intros Hs _. eapply IH; eauto.
      * intros Hs [[Habs | Hin] | He]; [congruence | |]; eauto.
Qed.

(** How the head of [main] can end. *)
Lemma main_options_cases (argv : list string) :
  main_options argv = ([Print MsgUsage], Exited 1) \/
  (exists x, main_options argv = ([], Raised x)) \/
  (exists opts args env r,
     getopt argv ["env="; "end-epoch="] [] = Ok (opts, args) /\
     scan_options opts "testnet" None = Ok (env, r) /\
     main_options argv = ([], Returned (env, r))).
Proof.
  unfold main_options. destruct (2 <? List.length argv)%nat.
  - left. reflexivity.
  - right.
    destruct (getopt argv ["env="; "end-epoch="] []) as [[opts args] | x].
    + simpl. destruct (scan_options opts "testnet" None) as [[env r] | x] eqn:Hs.
      * right. exists opts, args, env, r. unfold bind; simpl. rewrite Hs. auto.
      * left. exists x. unfold bind; simpl. now rewrite Hs.
    + left. exists x. reflexivity.
Qed.

(** The remote fetch begins with the request. *)
Lemma get_current_network_epoch_starts (env : string) :
  exists rest,
    trace (get_current_network_epoch w env) = RemoteCall env :: rest.
Proof.
  assert (Hfirst : exists rest,
            trace (epoch_attempt w env 0) = RemoteCall env :: rest).
  { unfold epoch_attempt.
    match goal with
    | |- exists rest, trace (bind ?m ?f) = _ =>
        destruct (trace_bind_prefix m f) as [rest Hrest]
    end.
    exists rest. exact Hrest. }
  destruct Hfirst as [rest0 Hrest0].
  unfold get_current_network_epoch.
  change (seq 0 NUM_RETRIES) with (0%nat :: seq 1 4).
  cbn [for_range].
  match goal with
  | |- exists rest, trace (bind ?m ?f) = _ =>
      destruct (trace_bind_prefix m f) as [rest Hrest]
  end.
  exists (rest0 ++ rest)%list. rewrite Hrest, Hrest0. reflexivity.
Qed.

(** C7: when the options of an invocation include [--end-epoch], no
    remote request is made in the run, and the integer the option gives
    is the target the rest of [main] works with; a run makes the remote
    request only when the options include no [--end-epoch], and then it
    is the first thing it does. *)
Theorem explicit_end_epoch_skips_remote (fuel : nat) (argv : list string) :
  (forall opts args,
     getopt argv ["env="; "end-epoch="] [] = Ok (opts, args) ->
     In "--end-epoch" (map fst opts) ->
     emits_only not_remote (main w fuel argv)) /\
  (forall env n,
     out (main_options argv) = Returned (env, Some n) ->
     main w fuel argv = sync_to w fuel n) /\
  (forall env,
     out (main_options argv) = Returned (env, None) ->
     exists rest, trace (main w fuel argv) = RemoteCall env :: rest) /\
  (forall env,
     In (RemoteCall env) (trace (main w fuel argv)) ->
     exists opts args,
       getopt argv ["env="; "end-epoch="] [] = Ok (opts, args) /\
       ~ In "--end-epoch" (map fst opts)).
Proof.
  assert (Hsome : forall env n,
            main_options argv = ([], Returned (env, Some n)) ->
            main w fuel argv = sync_to w fuel n).
  { intros env n H. unfold main. rewrite H, bind_pure. simpl.
    unfold ret. now rewrite bind_pure. }
  destruct (main_options_cases argv)
    as [Hu | [[x Hx] | (opts & args & env & r & Hg & Hs & Hm)]].
  - (* usage error *)
    assert (Hmain : main w fuel argv = ([Print MsgUsage], Exited 1))
      by (unfold main; now rewrite Hu).
    repeat split.
    + intros _ _ _ _. rewrite Hmain. repeat constructor.
    + intros env n H. rewrite Hu in H. discriminate.
    + intros env H. rewrite Hu in H. discriminate.
    + intros env H. rewrite Hmain in H. simpl in H.
      destruct H as [H | []]. discriminate.
  - (* an exception of getopt or int *)
    assert (Hmain : main w fuel argv = ([], Raised x))
      by (unfold main; now rewrite Hx).
    repeat split.
    + intros _ _ _ _. rewrite Hmain. constructor.
    + intros env n H. rewrite Hx in H. discriminate.
    + intros env H. rewrite Hx in H. discriminate.
    + intros env H. rewrite Hmain in H. destruct H.
  - destruct r as [n |].
    + (* a target was given *)
      pose proof (Hsome env n Hm) as Hmain.
      repeat split.
      * intros _ _ _ _. rewrite Hmain. apply sync_to_not_remote.
      * intros env' n' H. rewrite Hm in H. injection H as <- <-. exact Hmain.
      * intros env' H. rewrite Hm in H. discriminate.
      * intros env' H. rewrite Hmain in H.
        pose proof (sync_to_not_remote fuel n) as Hq.
        unfold emits_only in Hq. rewrite Forall_forall in Hq.
        destruct (Hq _ H).
    + (* no target was given *)
      assert (Hno : ~ In "--end-epoch" (map fst opts)).
      { intros Hin.
        destruct (scan_options_end_epoch opts _ _ _ _ Hs (or_introl Hin))
          as [n Hn]. discriminate. }
      repeat split.
      * intros opts' args' Hg' Hin. rewrite Hg in Hg'.
        injection Hg' as <- <-. contradiction.
      * intros env' n' H. rewrite Hm in H. discriminate.
      * intros env' H. rewrite Hm in H. injection H as <-.
        unfold main. rewrite Hm, bind_pure. cbn [fst snd].
        destruct (get_current_network_epoch_starts env) as [rest Hrest].
        match goal with
        | |- exists r, trace (bind ?m ?f) = _ =>
            destruct (trace_bind_prefix m f) as [rest' Hrest']
        end.
        exists (rest ++ rest')%list. rewrite Hrest', Hrest. reflexivity.
      * intros env' _. exists opts, args. auto.
Qed.

End Target.

Lemma explicit_end_epoch_skips_remote_witness :
  emits_only not_remote (main all_down 0 ["--end-epoch=50"]) /\
  main all_down 0 ["--end-epoch=50"] = sync_to all_down 0 50 /\
  (exists rest,
     trace (main all_down 0 ["--env=devnet"]) = RemoteCall "devnet" :: rest).
Proof.
  destruct (explicit_end_epoch_skips_remote all_down 0 ["--end-epoch=50"])
    as (Hskip & Htarget & _).
  split; [| split].
  - apply (Hskip [("--end-epoch", "50")] []); [reflexivity |].
    simpl. now left.
  - apply (Htarget "testnet" 50). reflexivity.
  - apply (proj1 (proj2 (proj2
             (explicit_end_epoch_skips_remote all_down 0 ["--env=devnet"])))).
    reflexivity.
Defined.

(** * Further properties of the script *)

(** ** Recovery and bounds of the retried operations *)

Lemma sleeps_app (t1 t2 : list event) :
  sleeps (t1 ++ t2) = (sleeps t1 ++ sleeps t2)%list.
Proof.
  induction t1 as [| [] t1 IH]; simpl; congruence.
Qed.

Lemma sleeps_rounds {A} (body : nat -> W (ctl A)) (delay : nat -> Z)
      (range : list nat) :
  (forall i, In i range -> sleeps (trace (body i)) = [delay i]) ->
  sleeps (rounds body range) = map delay range.
Proof.
  induction range as [| i range IH]; intros H; [reflexivity |].
  unfold rounds. simpl. rewrite sleeps_app, H by now left.
  simpl. f_equal. apply IH. intros j Hj. apply H. now right.
Qed.

Lemma calls_app (t1 t2 : list event) :
  calls (t1 ++ t2) = (calls t1 + calls t2)%nat.
Proof.
  unfold calls. now rewrite filter_app, length_app.
Qed.

Lemma calls_rounds {A} (body : nat -> W (ctl A)) (range : list nat) :
  (forall i, In i range -> calls (trace (body i)) = 1%nat) ->
  calls (rounds body range) = List.length range.
Proof.
  induction range as [| i range IH]; intros H; [reflexivity |].
  unfold rounds. simpl. rewrite calls_app, H by now left.
  simpl. f_equal. apply IH. intros j Hj. apply H. now right.
Qed.

(** An attempt of the local read that returns a value has done nothing
    but run the pipeline. *)
Lemma metric_attempt_returned (w : world) (metric : Metric) (k i : nat) (n : Z) :
  out (metric_attempt w metric k i) = Returned (Return n) ->
  metric_attempt w metric k i = ([LocalCall metric], Returned (Return n)).
Proof.
  unfold metric_attempt.
  destruct (metrics_pipeline w metric (metrics w k i)) as [result | rc];
    [| discriminate].
  destruct (nth_error (split result) 1) as [tok |]; [| discriminate].
  unfold int_of_text. destruct (int_literal bytes_isspace tok) as [v |];
    [| discriminate].
  unfold out; simpl. now intros [= ->].
Qed.

(** X1: a local read whose first [j] attempts (fewer than five) find no
    line and whose next attempt yields a value returns that value, having
    run the pipeline [j + 1] times and slept [3 * 2^i] seconds after each
    failed attempt [i]. *)
Theorem local_read_recovers (w : world) (metric : Metric) (k j : nat) (n : Z) :
  (j < NUM_RETRIES)%nat ->
  (forall i, (i < j)%nat ->
             exists rc, metrics_pipeline w metric (metrics w k i) = inr rc) ->
  out (metric_attempt w metric k j) = Returned (Return n) ->
  out (get_local_metric w metric k) = Returned n /\
  sleeps (trace (get_local_metric w metric k)) = map backoff_delay (seq 0 j) /\
  calls (trace (get_local_metric w metric k)) = S j.
Proof.
  intros Hj Hfail Hok.
  assert (Hpre : forall i, In i (seq 0 j) ->
            exists rc, metric_attempt w metric k i =
              ([LocalCall metric; Print (MsgCurlFailed rc);
                Sleep (backoff_delay i)], Returned Continue)).
  { intros i Hi. apply in_seq in Hi.
    destruct (Hfail i) as [rc Hrc]; [lia |].
    exists rc. now apply metric_attempt_no_line. }
  unfold get_local_metric. rewrite (seq_split j) by assumption.
  rewrite (for_range_returns _ _ _ _ j n);
    [| intros i Hi; destruct (Hpre i Hi) as [rc ->]; reflexivity | assumption].
  rewrite (metric_attempt_returned w metric k j n Hok).
  unfold trace, out; simpl. split; [reflexivity |]. split.
  - rewrite sleeps_app. simpl. rewrite app_nil_r.
    apply sleeps_rounds. intros i Hi. destruct (Hpre i Hi) as [rc ->].
    reflexivity.
  - rewrite calls_app, (calls_rounds _ (seq 0 j)).
    + rewrite length_seq. unfold calls; simpl. lia.
    + intros i Hi. destruct (Hpre i Hi) as [rc ->]. reflexivity.
Qed.

Lemma local_read_recovers_witness :
  out (get_local_metric flaky EPOCH 0) = Returned 42 /\
  sleeps (trace (get_local_metric flaky EPOCH 0)) = [3; 6] /\
  calls (trace (get_local_metric flaky EPOCH 0)) = 3%nat.
Proof.
  apply (local_read_recovers flaky EPOCH 0 2 42).
  - unfold NUM_RETRIES. lia.
  - intros i Hi. exists 1.
    destruct i as [| [| i]]; [reflexivity | reflexivity | lia].
  - reflexivity.
Defined.

(** The value the answer of the remote service holds at
    [result.data[0].epoch], coerced by [int]. *)
Lemma epoch_attempt_json (w : world) (env : string) (i : nat)
      (d : list (string * pyval)) :
  remote w i = CurlOk (Json (PDict d)) ->
  lookup "error" d = None ->
  epoch_attempt w env i =
  match epoch_of d with
  | Ok n => ([RemoteCall env], Returned (Return n))
  | Err e =>
      if existsb (exn_eqb e) [KeyError; IndexError; JSONDecodeError]
      then ([RemoteCall env; Print MsgRpcMalformed; Sleep (backoff_delay i)],
            Returned Continue)
      else ([RemoteCall env], Raised e)
  end.
Proof.
  intros Hr He. unfold epoch_attempt. rewrite Hr.
  unfold try_except, bind, json_loads, py_in, eval.
  cbn [fst snd ret]. rewrite He. cbn [fst snd ret].
  fold (epoch_of d).
  destruct (epoch_of d) as [n | []]; reflexivity.
Qed.

(** How an attempt of the remote fetch can go. *)
Lemma epoch_attempt_cases (w : world) (env : string) (i : nat) :
  (exists msg delay,
     (delay = backoff_delay i \/ delay = 3) /\
     epoch_attempt w env i =
       ([RemoteCall env; Print msg; Sleep delay], Returned Continue)) \/
  (exists n, epoch_attempt w env i = ([RemoteCall env], Returned (Return n))) \/
  (exists x, epoch_attempt w env i = ([RemoteCall env], Raised x)).
Proof.
  destruct (remote w i) as [rc | [| | v]] eqn:Hr.
  - left. exists (MsgCurlFailed rc), (backoff_delay i).
    split; [now left | now apply epoch_attempt_transport].
  - right. right. exists UnicodeDecodeError.
    unfold epoch_attempt. rewrite Hr. reflexivity.
  - left. exists MsgRpcMalformed, (backoff_delay i).
    split; [now left | now apply epoch_attempt_not_json].
  - destruct v as [| b | z | x | s | l | d];
      try (right; right; exists TypeError;
           unfold epoch_attempt; rewrite Hr; reflexivity).
    + right. right. exists TypeError. unfold epoch_attempt. rewrite Hr.
      unfold try_except, bind, eval, json_loads, py_in; simpl.
      destruct (contains "error" s); reflexivity.
    + right. right. exists TypeError. unfold epoch_attempt. rewrite Hr.
      unfold try_except, bind, eval, json_loads, py_in; simpl.
      destruct (existsb (is_str "error") l); reflexivity.
    + destruct (lookup "error" d) as [err |] eqn:He.
      * left. exists (MsgRpcError err), 3.
        split; [now right | now apply (epoch_attempt_rpc_error w env i d)].
      * rewrite (epoch_attempt_json w env i d Hr He).
        destruct (epoch_of d) as [v | e].
        -- right. left. now exists v.
        -- destruct (existsb _ _).
           ++ left. exists MsgRpcMalformed, (backoff_delay i).
              split; [now left | reflexivity].
           ++ right. right. now exists e.
Qed.

(** An attempt of the remote fetch that returns a value has done nothing
    but make the request. *)
Lemma epoch_attempt_returned (w : world) (env : string) (i : nat) (n : Z) :
  out (epoch_attempt w env i) = Returned (Return n) ->
  epoch_attempt w env i = ([RemoteCall env], Returned (Return n)).
Proof.
  destruct (epoch_attempt_cases w env i)
    as [(msg & delay & _ & ->) | [[v ->] | [x ->]]]; try discriminate.
  unfold out; simpl. now intros [= ->].
Qed.

(** X2: a remote fetch whose first [j] attempts (fewer than five) fail in
    transport or return text that is not JSON and whose next attempt
    yields an epoch returns that epoch, having made [j + 1] requests and
    slept [3 * 2^i] seconds after each failed attempt [i]. *)
Theorem remote_fetch_recovers (w : world) (env : string) (j : nat) (n : Z) :
  (j < NUM_RETRIES)%nat ->
  (forall i, (i < j)%nat ->
             (exists rc, remote w i = CurlFailed rc) \/
             remote w i = CurlOk NotJson) ->
  out (epoch_attempt w env j) = Returned (Return n) ->
  out (get_current_network_epoch w env) = Returned n /\
  sleeps (trace (get_current_network_epoch w env)) =
    map backoff_delay (seq 0 j) /\
  calls (trace (get_current_network_epoch w env)) = S j.
Proof.
  intros Hj Hfail Hok.
  assert (Hpre : forall i, In i (seq 0 j) ->
            exists msg, epoch_attempt w env i =
              ([RemoteCall env; Print msg; Sleep (backoff_delay i)],
               Returned Continue)).
  { intros i Hi. apply in_seq in Hi.
    destruct (Hfail i) as [[rc Hrc] | Hnj]; [lia | |].
    - exists (MsgCurlFailed rc). now apply epoch_attempt_transport.
    - exists MsgRpcMalformed. now apply epoch_attempt_not_json. }
  unfold get_current_network_epoch. rewrite (seq_split j) by assumption.
  rewrite (for_range_returns _ _ _ _ j n);
    [| intros i Hi; destruct (Hpre i Hi) as [msg ->]; reflexivity | assumption].
  rewrite (epoch_attempt_returned w env j n Hok).
  unfold trace, out; simpl. split; [reflexivity |]. split.
  - rewrite sleeps_app. simpl. rewrite app_nil_r.
    apply sleeps_rounds. intros i Hi. destruct (Hpre i Hi) as [msg ->].
    reflexivity.
  - rewrite calls_app, (calls_rounds _ (seq 0 j)).
    + rewrite length_seq. unfold calls; simpl. lia.
    + intros i Hi. destruct (Hpre i Hi) as [msg ->]. reflexivity.
Qed.

Lemma remote_fetch_recovers_witness :
  out (get_current_network_epoch flaky "testnet") = Returned 42 /\
  sleeps (trace (get_current_network_epoch flaky "testnet")) = [3; 6] /\
  calls (trace (get_current_network_epoch flaky "testnet")) = 3%nat.
Proof.
  apply (remote_fetch_recovers flaky "testnet" 2 42).
  - unfold NUM_RETRIES. lia.
  - intros i Hi.
    destruct i as [| [| i]]; [left; now exists 7 | now right | lia].
  - reflexivity.
Defined.

Lemma total_sleep_app (t1 t2 : list event) :
  total_sleep (t1 ++ t2) = total_sleep t1 + total_sleep t2.
Proof.
  unfold total_sleep. rewrite sleeps_app.
  induction (sleeps t1) as [| x l IH]; simpl; lia.
Qed.

Section Budget.

Context {A : Type}.
Variable body : nat -> W (ctl A).
Variable after : W A.

(** The loop sleeps no longer than its rounds may, taken together. *)
Lemma for_range_total_sleep (bound : nat -> Z) (range : list nat) :
  (forall i, 0 <= total_sleep (trace (body i)) <= bound i) ->
  total_sleep (trace after) = 0 ->
  0 <= total_sleep (trace (for_range range body after)) <=
  fold_right Z.add 0 (map bound range).
Proof.
  intros Hbody Hafter. induction range as [| i range IH]; simpl.
  - rewrite Hafter. lia.
  - specialize (Hbody i).
    destruct (body i) as [tr [[| a] | c | x | ]]; unfold bind, trace in *;
      simpl in *; try lia.
    + rewrite total_sleep_app. lia.
    + rewrite app_nil_r. lia.
Qed.

Lemma for_range_calls (range : list nat) :
  (forall i, (calls (trace (body i)) <= 1)%nat) ->
  calls (trace after) = 0%nat ->
  (calls (trace (for_range range body after)) <= List.length range)%nat.
Proof.
  intros Hbody Hafter. induction range as [| i range IH]; simpl.
  - rewrite Hafter. lia.
  - specialize (Hbody i).
    destruct (body i) as [tr [[| a] | c | x | ]]; unfold bind, trace in *;
      simpl in *; try lia.
    + rewrite calls_app. lia.
    + rewrite app_nil_r. lia.
Qed.

End Budget.

Lemma backoff_delay_pos (i : nat) : 3 <= backoff_delay i.
Proof.
  unfold backoff_delay.
  assert (0 < 2 ^ Z.of_nat i) by (apply Z.pow_pos_nonneg; lia). lia.
Qed.

(** How an attempt of the local read can go. *)
Lemma metric_attempt_cases (w : world) (metric : Metric) (k i : nat) :
  (exists rc,
     metric_attempt w metric k i =
       ([LocalCall metric; Print (MsgCurlFailed rc); Sleep (backoff_delay i)],
        Returned Continue)) \/
  (exists n, metric_attempt w metric k i =
               ([LocalCall metric], Returned (Return n))) \/
  (exists x, metric_attempt w metric k i = ([LocalCall metric], Raised x)).
Proof.
  destruct (metrics_pipeline w metric (metrics w k i)) as [result | rc] eqn:Hp.
  - destruct (nth_error (split result) 1) as [tok |] eqn:Ht.
    + destruct (int_literal bytes_isspace tok) as [n |] eqn:Hn.
      * right. left. exists n.
        now apply (metric_attempt_value w metric k i result tok).
      * right. right. exists ValueError.
        now apply (metric_attempt_bad_value w metric k i result tok).
    + right. right. exists AttributeError.
      now apply (metric_attempt_no_value w metric k i result).
  - left. exists rc. now apply metric_attempt_no_line.
Qed.

(** X3: whatever the remote service and the metrics endpoint answer, one
    call of either retried operation starts at most 5 subprocess
    pipelines and sleeps at most 93 seconds in all. *)
Theorem retries_are_bounded (w : world) (env : string) (metric : Metric)
        (k : nat) :
  (calls (trace (get_current_network_epoch w env)) <= 5)%nat /\
  total_sleep (trace (get_current_network_epoch w env)) <= 93 /\
  (calls (trace (get_local_metric w metric k)) <= 5)%nat /\
  total_sleep (trace (get_local_metric w metric k)) <= 93.
Proof.
  assert (Hepoch : forall i,
            0 <= total_sleep (trace (epoch_attempt w env i)) <= backoff_delay i /\
            (calls (trace (epoch_attempt w env i)) <= 1)%nat).
  { intros i. pose proof (backoff_delay_pos i).
    destruct (epoch_attempt_cases w env i)
      as [(msg & delay & [-> | ->] & ->) | [[v ->] | [x ->]]];
      unfold total_sleep, calls; simpl; split; lia. }
  assert (Hmetric : forall i,
            0 <= total_sleep (trace (metric_attempt w metric k i)) <=
              backoff_delay i /\
            (calls (trace (metric_attempt w metric k i)) <= 1)%nat).
  { intros i. pose proof (backoff_delay_pos i).
    destruct (metric_attempt_cases w metric k i)
      as [(rc & ->) | [[v ->] | [x ->]]];
      unfold total_sleep, calls; simpl; split; lia. }
  destruct backoff_schedule as [_ Hsum].
  repeat split.
  - apply (for_range_calls _ _ (seq 0 NUM_RETRIES));
      [apply Hepoch | reflexivity].
  - rewrite <- Hsum. apply for_range_total_sleep;
      [apply Hepoch | reflexivity].
  - apply (for_range_calls _ _ (seq 0 NUM_RETRIES));
      [apply Hmetric | reflexivity].
  - rewrite <- Hsum. apply for_range_total_sleep;
      [apply Hmetric | reflexivity].
Qed.

(** ** The rounds of the polling loop *)

Lemma out_bind {A B} (m : W A) (f : A -> W B) :
  out (bind m f) =
  match out m with
  | Returned a => out (f a)
  | Exited c => Exited c
  | Raised e => Raised e
  | Unfinished => Unfinished
  end.
Proof.
  destruct m as [tr [a | c | e | ]]; reflexivity.
Qed.

Lemma trace_bind {A B} (m : W A) (f : A -> W B) :
  trace (bind m f) =
  match out m with
  | Returned a => (trace m ++ trace (f a))%list
  | _ => trace m
  end.
Proof.
  destruct m as [tr [a | c | e | ]]; reflexivity.
Qed.

Section Rounds.

Variable w : world.

Local Arguments get_local_metric : simpl never.

(** X8: a round of the polling loop whose epoch reading is no increase,
    taken at most 20 minutes (20 minutes exactly included) after the
    timer was set, completes: the stored epoch and the timer stay as they
    were, also when the reading is lower than the stored epoch, and the
    checkpoint becomes the new reading. *)
Theorem quiet_round_keeps_timer (s : loop_state) (cp e : Z) :
  out (get_local_metric w CHECKPOINT (reads s)) = Returned cp ->
  cp <> current_checkpoint s ->
  out (get_local_metric w EPOCH (S (reads s))) = Returned e ->
  e <= current_epoch s ->
  clock w (ticks s) - current_time s <= EPOCH_STUCK_THRESHOLD_SEC * 1000000 ->
  poll_once w s =
    ((Sleep 10 :: trace (get_local_metric w CHECKPOINT (reads s)) ++
      trace (get_local_metric w EPOCH (S (reads s))) ++
      [Now (clock w (ticks s)); Print (MsgNewCheckpoint cp)])%list,
     Returned {| current_epoch := current_epoch s;
                 current_checkpoint := cp;
                 current_time := current_time s;
                 reads := S (S (reads s));
                 ticks := S (ticks s) |}).
Proof.
  intros Hrc Hne Hre Hle Hshort.
  pose proof (poll_once_spec w s) as Hspec. simpl in Hspec.
  rewrite Hrc, Hre in Hspec.
  apply Z.eqb_neq in Hne. rewrite Hne in Hspec.
  apply Z.ltb_ge in Hle. rewrite Hle in Hspec.
  unfold longer_than in Hspec. apply Z.ltb_ge in Hshort.
  now rewrite Hshort in Hspec.
Qed.

Lemma new_epochs_app (t1 t2 : list event) :
  new_epochs (t1 ++ t2) = (new_epochs t1 ++ new_epochs t2)%list.
Proof.
  induction t1 as [| [| | | | []] t1 IH]; simpl; congruence.
Qed.

Lemma local_events_no_new_epoch (tr : list event) :
  Forall local_event tr -> new_epochs tr = [].
Proof.
  induction 1 as [| e tr He _ IH]; [reflexivity |].
  destruct e as [| | | | []]; simpl in *; tauto.
Qed.

Lemma last_cons (x : Z) (l : list Z) (d : Z) :
  last (x :: l) d = last l x.
Proof.
  revert x d. induction l as [| y l IH]; intros x d; [reflexivity |].
  change (last (x :: y :: l) d) with (last (y :: l) d).
  now rewrite (IH y d), (IH y x).
Qed.

(** What a round of the loop announces: the epoch it read, when that is
    above the stored one; the state it hands on stores the higher of the
    two. *)
Lemma poll_once_new_epochs (s : loop_state) :
  (new_epochs (trace (poll_once w s)) = [] /\
   forall s', out (poll_once w s) = Returned s' ->
              current_epoch s' = current_epoch s) \/
  (exists e,
     current_epoch s < e /\
     out (get_local_metric w EPOCH (S (reads s))) = Returned e /\
     new_epochs (trace (poll_once w s)) = [e] /\
     exists s', out (poll_once w s) = Returned s' /\ current_epoch s' = e).
Proof.
  pose proof (local_events_no_new_epoch _
                (get_local_metric_events w CHECKPOINT (reads s))) as Hc.
  pose proof (local_events_no_new_epoch _
                (get_local_metric_events w EPOCH (S (reads s)))) as He.
  rewrite (poll_once_spec w s).
  destruct (out (get_local_metric w CHECKPOINT (reads s))) as [cp | c | x | ].
  2-4: left; unfold trace, out in *; simpl; split; [exact Hc | discriminate].
  destruct (cp =? current_checkpoint s).
  { left. unfold trace, out in *; simpl. rewrite new_epochs_app, Hc.
    split; [reflexivity | discriminate]. }
  destruct (out (get_local_metric w EPOCH (S (reads s)))) as [e | c | x | ].
  2-4: left; unfold trace, out in *; simpl; rewrite new_epochs_app, Hc, He;
       split; [reflexivity | discriminate].
  destruct (current_epoch s <? e) eqn:Hlt.
  - right. exists e. apply Z.ltb_lt in Hlt.
    split; [assumption |]. split; [reflexivity |].
    unfold trace, out in *; simpl. rewrite !new_epochs_app, Hc, He.
    split; [reflexivity |]. eexists. split; reflexivity.
  - left. destruct (longer_than _ _); unfold trace, out in *; simpl;
      rewrite !new_epochs_app, Hc, He; split; try reflexivity;
      try discriminate.
    now intros s' [= <-].
Qed.

Lemma polling_new_epochs (fuel : nat) (end_epoch : Z) :
  forall s,
    increasing_from (current_epoch s)
      (new_epochs (trace (polling w fuel end_epoch s))) /\
    forall s', out (polling w fuel end_epoch s) = Returned s' ->
               current_epoch s' =
               last (new_epochs (trace (polling w fuel end_epoch s)))
                    (current_epoch s).
Proof.
  induction fuel as [| f IH]; intros s; simpl;
    destruct (current_epoch s <? end_epoch);
    try (split; [exact I | now intros s' [= <-]]);
    try (split; [exact I | discriminate]).
  rewrite out_bind, trace_bind.
  destruct (poll_once_new_epochs s)
    as [[Hnone Hkeep] | (e & Hlt & _ & Hone & s1 & Hs1 & He1)].
  - destruct (out (poll_once w s)) as [s1 | c | x | ] eqn:Hp;
      try (rewrite Hnone; split; [exact I | discriminate]).
    rewrite new_epochs_app, Hnone. cbn [app].
    rewrite <- (Hkeep s1 eq_refl). apply IH.
  - rewrite Hs1, new_epochs_app, Hone. cbn [app].
    destruct (IH s1) as [Hinc Hlast]. rewrite He1 in Hinc, Hlast.
    split; [cbn [increasing_from]; now split |].
    intros s' Hs'. rewrite (Hlast s' Hs'). now rewrite last_cons.
Qed.

(** X9: the epoch the polling loop stores only goes up.  A round that
    returns stores the higher of the stored epoch and the epoch it read;
    the epochs a run of the loop announces as new are strictly
    increasing and all above the epoch the loop started with, whatever
    the metric reads; and when the loop returns, the stored epoch is the
    last one announced, or the starting epoch if none was. *)
Theorem stored_epoch_never_decreases (fuel : nat) (end_epoch : Z)
        (s : loop_state) :
  (forall e s',
     out (get_local_metric w EPOCH (S (reads s))) = Returned e ->
     out (poll_once w s) = Returned s' ->
     current_epoch s' = Z.max (current_epoch s) e) /\
  increasing_from (current_epoch s)
    (new_epochs (trace (polling w fuel end_epoch s))) /\
  (forall s', out (polling w fuel end_epoch s) = Returned s' ->
              current_epoch s' =
              last (new_epochs (trace (polling w fuel end_epoch s)))
                   (current_epoch s)).
Proof.
  split; [| apply polling_new_epochs].
  intros e s' He. rewrite (poll_once_spec w s), He.
  destruct (out (get_local_metric w CHECKPOINT (reads s))) as [cp | c | x | ];
    try discriminate.
  destruct (cp =? current_checkpoint s); [discriminate |].
  destruct (current_epoch s <? e) eqn:Hlt.
  - apply Z.ltb_lt in Hlt. unfold out; simpl. intros [= <-]. simpl. lia.
  - apply Z.ltb_ge in Hlt. destruct (longer_than _ _); [discriminate |].
    unfold out; simpl. intros [= <-]. simpl. lia.
Qed.

End Rounds.

Lemma quiet_round_keeps_timer_witness :
  poll_once twenty_minutes
    {| current_epoch := 10; current_checkpoint := 500; current_time := 0;
       reads := 0; ticks := 0 |} =
  ([Sleep 10; LocalCall CHECKPOINT; LocalCall EPOCH; Now 1200000000;
    Print (MsgNewCheckpoint 501)],
   Returned {| current_epoch := 10; current_checkpoint := 501;
               current_time := 0; reads := 2; ticks := 1 |}).
Proof.
  apply (quiet_round_keeps_timer twenty_minutes
           {| current_epoch := 10; current_checkpoint := 500;
              current_time := 0; reads := 0; ticks := 0 |} 501 9);
    solve [reflexivity | simpl; lia].
Defined.

Lemma stored_epoch_never_decreases_witness :
  current_epoch {| current_epoch := 10; current_checkpoint := 501;
                   current_time := 0; reads := 2; ticks := 1 |} =
    Z.max 10 9 /\
  current_epoch {| current_epoch := 12; current_checkpoint := 104;
                   current_time := 30000000; reads := 9; ticks := 4 |} =
    last (new_epochs
            (trace (polling sync_10_12 3 12
                      {| current_epoch := 10; current_checkpoint := 100;
                         current_time := 0; reads := 3; ticks := 1 |})))
         10.
Proof.
  split.
  - apply (proj1 (stored_epoch_never_decreases twenty_minutes 0 12
                    {| current_epoch := 10; current_checkpoint := 500;
                       current_time := 0; reads := 0; ticks := 0 |}) 9);
      reflexivity.
  - apply (proj2 (proj2 (stored_epoch_never_decreases sync_10_12 3 12
                    {| current_epoch := 10; current_checkpoint := 100;
                       current_time := 0; reads := 3; ticks := 1 |}))).
    reflexivity.
Defined.

(** ** Exit statuses *)

Lemma exits_only_with_bind {A B} (status : Z) (m : W A) (f : A -> W B) :
  exits_only_with status m ->
  (forall a, exits_only_with status (f a)) ->
  exits_only_with status (bind m f).
Proof.
  unfold exits_only_with. intros Hm Hf c. rewrite out_bind.
  destruct (out m) as [a | c' | e | ] eqn:Hout; try discriminate.
  - apply Hf.
  - intros [= <-]. now apply Hm.
Qed.

Lemma exits_only_with_for_range {A} (status : Z) (body : nat -> W (ctl A))
      (after : W A) (range : list nat) :
  (forall i, exits_only_with status (body i)) ->
  exits_only_with status after ->
  exits_only_with status (for_range range body after).
Proof.
  intros Hbody Hafter. induction range as [| i range IH]; simpl.
  - assumption.
  - apply exits_only_with_bind; [apply Hbody |].
    intros [| a]; [assumption | intros c; discriminate].
Qed.

Lemma exits_only_with_emit (status : Z) (e : event) :
  exits_only_with status (emit e).
Proof. intros c. discriminate. Qed.

Section Statuses.

Variable w : world.

Lemma get_local_metric_exits (metric : Metric) (k : nat) :
  exits_only_with 1 (get_local_metric w metric k).
Proof.
  intros c. apply get_local_metric_ends.
Qed.

Lemma get_current_network_epoch_exits (env : string) :
  exits_only_with 1 (get_current_network_epoch w env).
Proof.
  unfold get_current_network_epoch. apply exits_only_with_for_range.
  - intros i c.
    destruct (epoch_attempt_cases w env i)
      as [(msg & delay & _ & ->) | [[v ->] | [x ->]]]; discriminate.
  - intros c. unfold out; simpl. congruence.
Qed.

Lemma await_started_exits (start : Z) (k : nat) :
  exits_only_with 1 (await_started w start k).
Proof.
  unfold await_started. apply exits_only_with_for_range.
  - intros i. unfold await_poll.
    apply exits_only_with_bind; [apply get_local_metric_exits |].
    intros v. destruct (negb (v =? start)); intros c; discriminate.
  - intros c. discriminate.
Qed.

Lemma poll_once_exits (s : loop_state) : exits_only_with 1 (poll_once w s).
Proof.
  intros c. rewrite (poll_once_spec w s).
  pose proof (get_local_metric_exits CHECKPOINT (reads s)) as Hc.
  pose proof (get_local_metric_exits EPOCH (S (reads s))) as He.
  unfold exits_only_with in Hc, He.
  destruct (out (get_local_metric w CHECKPOINT (reads s))) as [cp | c1 | x | ];
    try discriminate.
  - destruct (cp =? current_checkpoint s);
      [unfold out; simpl; congruence |].
    destruct (out (get_local_metric w EPOCH (S (reads s)))) as [e | c1 | x | ];
      try discriminate.
    + destruct (current_epoch s <? e); [discriminate |].
      destruct (longer_than _ _); [unfold out; simpl; congruence | discriminate].
    + unfold out; simpl. intros [= <-]. now apply He.
  - unfold out; simpl. intros [= <-]. now apply Hc.
Qed.

Lemma polling_exits (fuel : nat) (end_epoch : Z) :
  forall s, exits_only_with 1 (polling w fuel end_epoch s).
Proof.
  induction fuel as [| f IH]; intros s; simpl;
    destruct (current_epoch s <? end_epoch); try (intros c; discriminate).
  apply exits_only_with_bind; [apply poll_once_exits | apply IH].
Qed.

(** The end of [main] exits with status 0 only after the loop has
    returned. *)
Lemma poll_and_report_exit (fuel : nat) (end_epoch e0 c0 : Z) (k : nat) (c : Z) :
  out (poll_and_report w fuel end_epoch e0 c0 k) = Exited c ->
  c = 1 \/
  (c = 0 /\
   exists s,
     out (polling w fuel end_epoch
            {| current_epoch := e0; current_checkpoint := c0;
               current_time := clock w 0; reads := k; ticks := 1 |}) =
       Returned s /\
     end_epoch <= current_epoch s).
Proof.
  destruct (out (polling w fuel end_epoch
                   {| current_epoch := e0; current_checkpoint := c0;
                      current_time := clock w 0; reads := k; ticks := 1 |}))
    as [s | c1 | x | ] eqn:Hp.
  - rewrite (poll_and_report_returned w fuel end_epoch e0 c0 k s Hp).
    unfold out; simpl. intros [= <-]. right. split; [reflexivity |].
    exists s. split; [reflexivity |].
    eapply polling_returned. exact Hp.
  - unfold poll_and_report. rewrite out_bind. simpl.
    rewrite out_bind, Hp. intros [= <-]. left.
    eapply polling_exits. exact Hp.
  - unfold poll_and_report. rewrite out_bind. simpl.
    rewrite out_bind, Hp. discriminate.
  - unfold poll_and_report. rewrite out_bind. simpl.
    rewrite out_bind, Hp. discriminate.
Qed.

Lemma sync_to_exit (fuel : nat) (end_epoch c : Z) :
  out (sync_to w fuel end_epoch) = Exited c ->
  c = 1 \/
  (c = 0 /\
   exists e0 c0 k s,
     out (get_local_metric w EPOCH 0) = Returned e0 /\
     out (get_local_metric w CHECKPOINT 1) = Returned c0 /\
     out (await_started w c0 2) = Returned k /\
     out (polling w fuel end_epoch
            {| current_epoch := e0; current_checkpoint := c0;
               current_time := clock w 0; reads := k; ticks := 1 |}) =
       Returned s /\
     end_epoch <= current_epoch s).
Proof.
  destruct (out (get_local_metric w EPOCH 0)) as [e0 | c1 | x | ] eqn:He0.
  2-4: unfold sync_to; rewrite out_bind; simpl; rewrite out_bind, He0;
       try discriminate; intros [= <-]; left;
       now apply (get_local_metric_exits EPOCH 0).
  destruct (out (get_local_metric w CHECKPOINT 1)) as [c0 | c1 | x | ] eqn:Hc0.
  2-4: unfold sync_to; rewrite out_bind; simpl; rewrite out_bind, He0;
       rewrite out_bind; simpl; rewrite out_bind, Hc0;
       try discriminate; intros [= <-]; left;
       now apply (get_local_metric_exits CHECKPOINT 1).
  destruct (out (await_started w c0 2)) as [k | c1 | x | ] eqn:Hk.
  2-4: unfold sync_to; rewrite out_bind; simpl; rewrite out_bind, He0;
       rewrite out_bind; simpl; rewrite out_bind, Hc0;
       rewrite out_bind; simpl; rewrite out_bind, Hk;
       try discriminate; intros [= <-]; left;
       now apply (await_started_exits c0 2).
  pose proof (sync_to_after_startup w fuel end_epoch e0 c0 k He0 Hc0 Hk) as Heq.
  rewrite Heq. unfold out at 1. cbn [snd]. intros Hex.
  destruct (poll_and_report_exit fuel end_epoch e0 c0 k c Hex)
    as [-> | (-> & s & Hs & Hle)]; [now left |].
  right. split; [reflexivity |]. now exists e0, c0, k, s.
Qed.

(** X4: when [main] ends the process, the status is 1 or 0; and it is 0
    only if every stage of the run returned: the options were read, the
    target was given or fetched, the two startup reads and the startup
    wait returned, and the polling loop, started from the startup
    readings, returned with the stored epoch at or above the target.
    The run is then the events of these stages in this order, followed
    by the clock reading and the report of the sync. *)
Theorem exit_status_zero_means_synced (fuel : nat) (argv : list string) (c : Z) :
  out (main w fuel argv) = Exited c ->
  c = 1 \/
  (c = 0 /\
   exists env target end_epoch e0 c0 k s,
     let fetch := match target with
                  | None => get_current_network_epoch w env
                  | Some n => ret n
                  end in
     let loop := polling w fuel end_epoch
                   {| current_epoch := e0; current_checkpoint := c0;
                      current_time := clock w 0; reads := k; ticks := 1 |} in
     main_options argv = ([], Returned (env, target)) /\
     out fetch = Returned end_epoch /\
     out (get_local_metric w EPOCH 0) = Returned e0 /\
     out (get_local_metric w CHECKPOINT 1) = Returned c0 /\
     out (await_started w c0 2) = Returned k /\
     out loop = Returned s /\
     end_epoch <= current_epoch s /\
     trace (main w fuel argv) =
       (trace fetch ++
        Print (MsgTarget end_epoch) ::
        trace (get_local_metric w EPOCH 0) ++
        Print (MsgLocalEpoch e0) ::
        trace (get_local_metric w CHECKPOINT 1) ++
        Print (MsgLocalCheckpoint c0) ::
        trace (await_started w c0 2) ++
        Now (clock w 0) ::
        trace loop ++
        [Now (clock w (ticks s)); Print MsgRule;
         Print (MsgSynced end_epoch e0 (current_checkpoint s - c0)
                          (clock w (ticks s) - clock w 0))])%list).
Proof.
  assert (Hsync : forall n,
            out (sync_to w fuel n) = Exited c ->
            c = 1 \/
            (c = 0 /\
             exists e0 c0 k s,
               out (get_local_metric w EPOCH 0) = Returned e0 /\
               out (get_local_metric w CHECKPOINT 1) = Returned c0 /\
               out (await_started w c0 2) = Returned k /\
               out (polling w fuel n
                      {| current_epoch := e0; current_checkpoint := c0;
                         current_time := clock w 0; reads := k; ticks := 1 |}) =
                 Returned s /\
               n <= current_epoch s /\
               trace (sync_to w fuel n) =
                 (Print (MsgTarget n) ::
                  trace (get_local_metric w EPOCH 0) ++
                  Print (MsgLocalEpoch e0) ::
                  trace (get_local_metric w CHECKPOINT 1) ++
                  Print (MsgLocalCheckpoint c0) ::
                  trace (await_started w c0 2) ++
                  Now (clock w 0) ::
                  trace (polling w fuel n
                           {| current_epoch := e0; current_checkpoint := c0;
                              current_time := clock w 0; reads := k;
                              ticks := 1 |}) ++
                  [Now (clock w (ticks s)); Print MsgRule;
                   Print (MsgSynced n e0 (current_checkpoint s - c0)
                                    (clock w (ticks s) - clock w 0))])%list)).
  { intros n Hex.
    destruct (sync_to_exit fuel n c Hex)
      as [-> | (-> & e0 & c0 & k & s & He0 & Hc0 & Hk & Hs & Hle)];
      [now left |].
    right. split; [reflexivity |]. exists e0, c0, k, s.
    repeat (split; [assumption |]).
    rewrite (sync_to_after_startup w fuel n e0 c0 k He0 Hc0 Hk).
    rewrite (poll_and_report_returned w fuel n e0 c0 k s Hs).
    reflexivity. }
  destruct (main_options_cases argv)
    as [Hu | [[x Hx] | (opts & args & env & r & _ & _ & Hm)]].
  - unfold main. rewrite Hu. unfold out; simpl. intros [= <-]. now left.
  - unfold main. rewrite Hx. discriminate.
  - unfold main. rewrite Hm, bind_pure. cbn [fst snd].
    destruct r as [n |].
    + unfold ret at 1. rewrite bind_pure. intros Hex.
      destruct (Hsync n Hex)
        as [-> | (-> & e0 & c0 & k & s & He0 & Hc0 & Hk & Hs & Hle & Htr)];
        [now left |].
      right. split; [reflexivity |].
      exists env, (Some n), n, e0, c0, k, s. cbn zeta.
      repeat (split; [first [assumption | reflexivity] |]).
      exact Htr.
    + rewrite out_bind, trace_bind.
      destruct (out (get_current_network_epoch w env)) as [n | c1 | e | ] eqn:Hg;
        try discriminate.
      * intros Hex.
        destruct (Hsync n Hex)
          as [-> | (-> & e0 & c0 & k & s & He0 & Hc0 & Hk & Hs & Hle & Htr)];
          [now left |].
        right. split; [reflexivity |].
        exists env, None, n, e0, c0, k, s. cbn zeta.
        repeat (split; [first [assumption | reflexivity] |]).
        now rewrite Htr.
      * intros [= <-]. left.
        now apply (get_current_network_epoch_exits env c1).
Qed.

End Statuses.

Lemma exit_status_zero_means_synced_witness :
  0 = 1 \/
  (0 = 0 /\
   exists env target end_epoch e0 c0 k s,
     let fetch := match target with
                  | None => get_current_network_epoch sync_10_12 env
                  | Some n => ret n
                  end in
     let loop := polling sync_10_12 3 end_epoch
                   {| current_epoch := e0; current_checkpoint := c0;
                      current_time := clock sync_10_12 0; reads := k;
                      ticks := 1 |} in
     main_options ["--end-epoch=12"] = ([], Returned (env, target)) /\
     out fetch = Returned end_epoch /\
     out (get_local_metric sync_10_12 EPOCH 0) = Returned e0 /\
     out (get_local_metric sync_10_12 CHECKPOINT 1) = Returned c0 /\
     out (await_started sync_10_12 c0 2) = Returned k /\
     out loop = Returned s /\
     end_epoch <= current_epoch s /\
     trace (main sync_10_12 3 ["--end-epoch=12"]) =
       (trace fetch ++
        Print (MsgTarget end_epoch) ::
        trace (get_local_metric sync_10_12 EPOCH 0) ++
        Print (MsgLocalEpoch e0) ::
        trace (get_local_metric sync_10_12 CHECKPOINT 1) ++
        Print (MsgLocalCheckpoint c0) ::
        trace (await_started sync_10_12 c0 2) ++
        Now (clock sync_10_12 0) ::
        trace loop ++
        [Now (clock sync_10_12 (ticks s)); Print MsgRule;
         Print (MsgSynced end_epoch e0 (current_checkpoint s - c0)
                          (clock sync_10_12 (ticks s) -
                           clock sync_10_12 0))])%list).
Proof.
  apply (exit_status_zero_means_synced sync_10_12 3 ["--end-epoch=12"] 0).
  reflexivity.
Defined.

(** ** The answers of the remote service *)

Section Answers.

Variable w : world.


(** X14: an answer without [error] in which the path
    [result.data[0].epoch] breaks off at a missing key or at an empty
    [data] list is a failed attempt, retried after the exponential
    delay. *)
Theorem missing_path_is_retried (env : string) (i : nat)
        (d : list (string * pyval)) :
  remote w i = CurlOk (Json (PDict d)) ->
  lookup "error" d = None ->
  (lookup "result" d = None \/
   exists r, lookup "result" d = Some (PDict r) /\
     (lookup "data" r = None \/
      lookup "data" r = Some (PList []) \/
      exists first rest,
        lookup "data" r = Some (PList (PDict first :: rest)) /\
        lookup "epoch" first = None)) ->
  epoch_attempt w env i =
    ([RemoteCall env; Print MsgRpcMalformed; Sleep (backoff_delay i)],
     Returned Continue).
Proof.
  intros Hr He Hshape. rewrite (epoch_attempt_json w env i d Hr He).
  assert (Hpath : epoch_of d = Err KeyError \/ epoch_of d = Err IndexError).
  { destruct Hshape
      as [Hres | (r & Hres & [Hd | [Hd | (first & rest & Hd & Hf)]])].
    - left. unfold epoch_of, getitem at 1. now rewrite Hres.
    - left. unfold epoch_of, getitem at 1. rewrite Hres. simpl.
      now rewrite Hd.
    - right. unfold epoch_of, getitem at 1. rewrite Hres. simpl.
      now rewrite Hd.
    - left. unfold epoch_of, getitem at 1. rewrite Hres. simpl.
      rewrite Hd. simpl. now rewrite Hf. }
  destruct Hpath as [-> | ->]; reflexivity.
Qed.

(** X16: an answer of an unexpected type is not retried: when the
    decoded JSON is null, a boolean or a number, or when its [result]
    member is not an object, the [TypeError] leaves the function past
    the handler, after the single request of the attempt. *)
Theorem wrong_type_is_not_retried (env : string) (i : nat) :
  (forall v,
     remote w i = CurlOk (Json v) ->
     (v = PNone \/ (exists b, v = PBool b) \/ (exists z, v = PInt z) \/
      (exists x, v = PFloat x)) ->
     epoch_attempt w env i = ([RemoteCall env], Raised TypeError)) /\
  (forall d v,
     remote w i = CurlOk (Json (PDict d)) ->
     lookup "error" d = None ->
     lookup "result" d = Some v ->
     (forall r, v <> PDict r) ->
     epoch_attempt w env i = ([RemoteCall env], Raised TypeError)).
Proof.
  split.
  - intros v Hr [-> | [[b ->] | [[z ->] | [x ->]]]];
      unfold epoch_attempt; rewrite Hr; reflexivity.
  - intros d v Hr He Hres Hv. rewrite (epoch_attempt_json w env i d Hr He).
    assert (Hpath : epoch_of d = Err TypeError).
    { unfold epoch_of, getitem at 1. rewrite Hres.
      destruct v as [| b | z | x | s | l | r]; try reflexivity.
      now destruct (Hv r). }
    now rewrite Hpath.
Qed.

End Answers.


Lemma missing_path_is_retried_witness :
  epoch_attempt odd_answers "testnet" 1 =
    ([RemoteCall "testnet"; Print MsgRpcMalformed; Sleep 6], Returned Continue).
Proof.
  apply (missing_path_is_retried odd_answers "testnet" 1 [("id", PInt 1)]);
    [reflexivity | reflexivity | now left].
Defined.

Lemma wrong_type_is_not_retried_witness :
  epoch_attempt odd_answers "testnet" 3 = ([RemoteCall "testnet"], Raised TypeError) /\
  epoch_attempt odd_answers "testnet" 2 = ([RemoteCall "testnet"], Raised TypeError).
Proof.
  destruct (wrong_type_is_not_retried odd_answers "testnet" 3) as [Htop _].
  destruct (wrong_type_is_not_retried odd_answers "testnet" 2) as [_ Hres].
  split.
  - apply (Htop PNone); [reflexivity | now left].
  - apply (Hres [("result", PNone)] PNone); try reflexivity.
    intros r. discriminate.
Defined.

(** ** The text of the metrics endpoint *)











(** ** The command line *)

Lemma getopt_operand (a : string) (rest : list string)
      (longopts : list string) (opts : list (string * string)) :
  String.prefix "-" a = false \/ a = "-" ->
  getopt (a :: rest) longopts opts = Ok (opts, a :: rest).
Proof.
  intros [H | ->]; simpl getopt; [now rewrite H | reflexivity].
Qed.

Lemma few_arguments (a : string) (rest : list string) :
  (List.length rest <= 1)%nat -> (2 <? List.length (a :: rest))%nat = false.
Proof.
  intros H. apply Nat.ltb_ge. simpl. lia.
Qed.

(** X5: option parsing stops at the first argument that does not begin
    with a dash (or is a lone dash): with such a first argument no option
    is read, not even an [--end-epoch] that follows, so the environment
    is [testnet] and the run starts with the remote request. *)
Theorem operand_ends_the_options (w : world) (fuel : nat) (a : string)
        (rest : list string) :
  String.prefix "-" a = false \/ a = "-" ->
  (List.length rest <= 1)%nat ->
  main_options (a :: rest) = ([], Returned ("testnet", None)) /\
  exists tl, trace (main w fuel (a :: rest)) = RemoteCall "testnet" :: tl.
Proof.
  intros Ha Hlen.
  assert (Hm : main_options (a :: rest) = ([], Returned ("testnet", None))).
  { unfold main_options. rewrite (few_arguments a rest Hlen).
    rewrite (getopt_operand a rest _ _ Ha). reflexivity. }
  split; [exact Hm |].
  unfold main. rewrite Hm, bind_pure. cbn [fst snd].
  destruct (get_current_network_epoch_starts w "testnet") as [tl Htl].
  rewrite trace_bind.
  destruct (out (get_current_network_epoch w "testnet"));
    rewrite Htl; simpl; eauto.
Qed.

Lemma operand_ends_the_options_witness :
  main_options ["sync"; "--end-epoch=50"] = ([], Returned ("testnet", None)) /\
  exists tl,
    trace (main all_down 0 ["sync"; "--end-epoch=50"]) =
    RemoteCall "testnet" :: tl.
Proof.
  apply (operand_ends_the_options all_down 0 "sync" ["--end-epoch=50"]).
  - now left.
  - simpl. lia.
Defined.

(** X13: an argument that begins with a dash and is none of the declared
    long options (any single-dash option, or a long option whose name is
    a prefix of neither [env=] nor [end-epoch=]) makes [main] end with
    the uncaught [GetoptError], before it prints or runs anything. *)
Theorem undeclared_option_is_fatal (w : world) (fuel : nat) (a : string)
        (rest : list string) :
  (List.length rest <= 1)%nat ->
  String.prefix "-" a = true ->
  a <> "-" -> a <> "--" ->
  (String.prefix "--" a = false \/
   (String.prefix (fst (cut_at_eq (drop2 a))) "env=" = false /\
    String.prefix (fst (cut_at_eq (drop2 a))) "end-epoch=" = false)) ->
  main w fuel (a :: rest) = ([], Raised GetoptError).
Proof.
  intros Hlen Hdash Hne1 Hne2 Hwhat.
  assert (Hg : getopt (a :: rest) ["env="; "end-epoch="] [] = Err GetoptError).
  { simpl getopt. rewrite Hdash.
    apply String.eqb_neq in Hne1, Hne2. rewrite Hne1, Hne2. simpl.
    destruct (String.prefix "--" a) eqn:Hlong; [| reflexivity].
    destruct Hwhat as [Habs | [He1 He2]]; [discriminate |].
    destruct (cut_at_eq (drop2 a)) as [opt optarg]. simpl in He1, He2.
    unfold long_has_args. simpl filter. now rewrite He1, He2. }
  unfold main, main_options. rewrite (few_arguments a rest Hlen), Hg.
  reflexivity.
Qed.

Lemma undeclared_option_is_fatal_witness :
  main all_down 0 ["-h"] = ([], Raised GetoptError) /\
  main all_down 0 ["--help"] = ([], Raised GetoptError).
Proof.
  split.
  - apply (undeclared_option_is_fatal all_down 0 "-h" []).
    + simpl. lia.
    + reflexivity.
    + discriminate.
    + discriminate.
    + now left.
  - apply (undeclared_option_is_fatal all_down 0 "--help" []).
    + simpl. lia.
    + reflexivity.
    + discriminate.
    + discriminate.
    + right. split; reflexivity.
Defined.

(** X12: more than two arguments, whatever they are, end [main] with the
    usage line and exit status 1; and whenever the head of [main] does
    not yield options (usage error, [GetoptError], a target that is no
    integer), the run starts no subprocess at all. *)
Theorem argument_errors_start_nothing (w : world) (fuel : nat)
        (argv : list string) :
  ((2 < List.length argv)%nat ->
   main w fuel argv = ([Print MsgUsage], Exited 1)) /\
  ((forall o, out (main_options argv) <> Returned o) ->
   calls (trace (main w fuel argv)) = 0%nat /\
   (main w fuel argv = ([Print MsgUsage], Exited 1) \/
    exists x, main w fuel argv = ([], Raised x))).
Proof.
  split.
  - intros Hlen. apply Nat.ltb_lt in Hlen.
    unfold main, main_options. rewrite Hlen. reflexivity.
  - intros Hbad.
    destruct (main_options_cases argv)
      as [Hu | [[x Hx] | (opts & args & env & r & _ & _ & Hm)]].
    + assert (Hmain : main w fuel argv = ([Print MsgUsage], Exited 1))
        by (unfold main; now rewrite Hu).
      rewrite Hmain. split; [reflexivity | now left].
    + assert (Hmain : main w fuel argv = ([], Raised x))
        by (unfold main; now rewrite Hx).
      rewrite Hmain. split; [reflexivity | right; now exists x].
    + exfalso. apply (Hbad (env, r)). now rewrite Hm.
Qed.

Lemma argument_errors_start_nothing_witness :
  main all_down 0 ["--env"; "devnet"; "--end-epoch=50"] =
    ([Print MsgUsage], Exited 1) /\
  calls (trace (main all_down 0 ["--end-epoch=soon"])) = 0%nat.
Proof.
  split.
  - apply (proj1 (argument_errors_start_nothing all_down 0
                    ["--env"; "devnet"; "--end-epoch=50"])).
    simpl. lia.
  - apply (proj2 (argument_errors_start_nothing all_down 0
                    ["--end-epoch=soon"])).
    intros o. discriminate.
Defined.







(** ** Exits are announced *)

Lemma announced_bind {A B} (m : W A) (f : A -> W B) :
  announced m -> (forall a, announced (f a)) -> announced (bind m f).
Proof.
  unfold announced. intros Hm Hf c. rewrite out_bind, trace_bind.
  destruct (out m) as [a | c' | e | ] eqn:Hout; try discriminate.
  - intros Hex. destruct (Hf a c Hex) as (pre & msg & -> & Hline).
    exists (trace m ++ pre)%list, msg. now rewrite app_assoc.
  - intros [= <-]. now apply (Hm c').
Qed.

Lemma announced_quiet {A} (m : W A) :
  (forall c, out m <> Exited c) -> announced m.
Proof.
  intros H c Hc. now destruct (H c).
Qed.

Lemma announced_print_exit {A} (msg : message) (status : Z) :
  final_line status msg ->
  announced (print msg ;; @exit A status).
Proof.
  intros Hline c [= <-]. now exists [], msg.
Qed.

Lemma announced_for_range {A} (body : nat -> W (ctl A)) (after : W A)
      (range : list nat) :
  (forall i, announced (body i)) -> announced after ->
  announced (for_range range body after).
Proof.
  intros Hbody Hafter. induction range as [| i range IH]; simpl.
  - assumption.
  - apply announced_bind; [apply Hbody |].
    intros [| a]; [assumption | apply announced_quiet; discriminate].
Qed.

Section Announced.

Variable w : world.

Lemma get_local_metric_announced (metric : Metric) (k : nat) :
  announced (get_local_metric w metric k).
Proof.
  unfold get_local_metric. apply announced_for_range.
  - intros i. apply announced_quiet. intros c.
    destruct (metric_attempt_cases w metric k i)
      as [(rc & ->) | [[v ->] | [x ->]]]; discriminate.
  - now apply announced_print_exit.
Qed.

Lemma get_current_network_epoch_announced (env : string) :
  announced (get_current_network_epoch w env).
Proof.
  unfold get_current_network_epoch. apply announced_for_range.
  - intros i. apply announced_quiet. intros c.
    destruct (epoch_attempt_cases w env i)
      as [(msg & delay & _ & ->) | [[v ->] | [x ->]]]; discriminate.
  - now apply announced_print_exit.
Qed.

Lemma await_started_announced (start : Z) (k : nat) :
  announced (await_started w start k).
Proof.
  unfold await_started. apply announced_for_range.
  - intros i. unfold await_poll.
    apply announced_bind; [apply get_local_metric_announced |].
    intros v. apply announced_quiet.
    destruct (negb (v =? start)); discriminate.
  - apply announced_quiet. discriminate.
Qed.

Lemma poll_once_announced (s : loop_state) : announced (poll_once w s).
Proof.
  unfold poll_once.
  apply announced_bind; [apply announced_quiet; discriminate |]. intros _.
  apply announced_bind; [apply get_local_metric_announced |]. intros cp.
  destruct (cp =? current_checkpoint s); [now apply announced_print_exit |].
  apply announced_bind; [apply get_local_metric_announced |]. intros e.
  apply announced_bind.
  - destruct (current_epoch s <? e); [apply announced_quiet; discriminate |].
    intros c Hc. revert Hc. unfold now, bind, emit, ret. cbn [fst snd].
    destruct (longer_than _ _); [| discriminate].
    intros [= <-].
    exists [Now (clock w (ticks s))], (MsgEpochStuck (current_epoch s)).
    now split.
  - intros s'. apply announced_quiet. discriminate.
Qed.

Lemma polling_announced (fuel : nat) (end_epoch : Z) :
  forall s, announced (polling w fuel end_epoch s).
Proof.
  induction fuel as [| f IH]; intros s; simpl;
    destruct (current_epoch s <? end_epoch);
    try (apply announced_quiet; discriminate).
  apply announced_bind; [apply poll_once_announced | apply IH].
Qed.

Lemma sync_to_announced (fuel : nat) (end_epoch : Z) :
  announced (sync_to w fuel end_epoch).
Proof.
  unfold sync_to.
  apply announced_bind; [apply announced_quiet; discriminate |]. intros _.
  apply announced_bind; [apply get_local_metric_announced |]. intros e0.
  apply announced_bind; [apply announced_quiet; discriminate |]. intros _.
  apply announced_bind; [apply get_local_metric_announced |]. intros c0.
  apply announced_bind; [apply announced_quiet; discriminate |]. intros _.
  apply announced_bind; [apply await_started_announced |]. intros k.
  unfold poll_and_report.
  apply announced_bind; [apply announced_quiet; discriminate |]. intros t0.
  apply announced_bind; [apply polling_announced |]. intros s.
  apply announced_bind; [apply announced_quiet; discriminate |]. intros t1.
  apply announced_bind; [apply announced_quiet; discriminate |]. intros _.
  now apply announced_print_exit.
Qed.

(** X7: whenever [main] ends the process with [exit], the last thing the
    run did before was to print the line that belongs to that exit: the
    report of the sync for status 0; the usage line, one of the two
    retry exhaustion lines, the checkpoint stall line or the epoch stall
    line for status 1. *)
Theorem every_exit_is_announced (fuel : nat) (argv : list string) (c : Z) :
  out (main w fuel argv) = Exited c ->
  exists pre msg,
    trace (main w fuel argv) = (pre ++ [Print msg])%list /\
    match msg with
    | MsgSynced _ _ _ _ => c = 0
    | MsgUsage | MsgEpochFetchExhausted | MsgMetricExhausted _
    | MsgCheckpointStuck _ | MsgEpochStuck _ => c = 1
    | _ => False
    end.
Proof.
  revert c. change (announced (main w fuel argv)). unfold main.
  apply announced_bind.
  - intros c Hc.
    destruct (main_options_cases argv)
      as [Hu | [[x Hx] | (opts & args & env & r & _ & _ & Hm)]].
    + rewrite Hu in Hc |- *. injection Hc as <-. now exists [], MsgUsage.
    + rewrite Hx in Hc. discriminate.
    + rewrite Hm in Hc. discriminate.
  - intros [env [n |]]; cbn [fst snd].
    + apply announced_bind; [apply announced_quiet; discriminate |].
      intros end_epoch. apply sync_to_announced.
    + apply announced_bind; [apply get_current_network_epoch_announced |].
      intros end_epoch. apply sync_to_announced.
Qed.

End Announced.

Lemma every_exit_is_announced_witness :
  exists pre msg,
    trace (main stuck_at_500 1 ["--end-epoch=9"; "--env=devnet"]) =
      (pre ++ [Print msg])%list /\
    match msg with
    | MsgSynced _ _ _ _ => 1 = 0
    | MsgUsage | MsgEpochFetchExhausted | MsgMetricExhausted _
    | MsgCheckpointStuck _ | MsgEpochStuck _ => 1 = 1
    | _ => False
    end.
Proof.
  apply (every_exit_is_announced stuck_at_500 1
           ["--end-epoch=9"; "--env=devnet"] 1).
  reflexivity.
Defined.
